(** * CopyGum clipboard engine: a shallow embedding of
    [content_detector.rs], [clipboard_monitor.rs], [image_handler.rs] and
    [app_icons.rs], and the properties of its specification. *)

From Stdlib Require Import List Bool Arith NArith ZArith String Ascii Lia QArith Qpower Lqa.
From stdpp Require Import base gmap strings.
Import ListNotations.

(* ================================================================== *)
(** ** Rust text *)

(** A Rust [char] is a Unicode scalar value; a [&str] / [String] is the
    sequence of its chars. [str::len] counts UTF-8 bytes. *)
Definition rchar := N.
Definition rstr := list rchar.

(** [char::len_utf8]. *)
Definition len_utf8 (c : rchar) : nat :=
  if (c <? 0x80)%N then 1
  else if (c <? 0x800)%N then 2
  else if (c <? 0x10000)%N then 3
  else 4.

(** [str::len]: the number of bytes of the UTF-8 encoding. *)
Definition str_len (s : rstr) : nat :=
  fold_right (fun c n => len_utf8 c + n) 0 s.

(** [char::is_whitespace], the Unicode White_Space property; the regex
    class [\s] is the same property. *)
Definition is_whitespace (c : rchar) : bool :=
  ((0x9 <=? c) && (c <=? 0xD))%N || (c =? 0x20)%N || (c =? 0x85)%N
  || (c =? 0xA0)%N || (c =? 0x1680)%N || ((0x2000 <=? c) && (c <=? 0x200A))%N
  || (c =? 0x2028)%N || (c =? 0x2029)%N || (c =? 0x202F)%N
  || (c =? 0x205F)%N || (c =? 0x3000)%N.

Fixpoint trim_start (s : rstr) : rstr :=
  match s with
  | c :: s' => if is_whitespace c then trim_start s' else s
  | [] => []
  end.

Definition trim_end (s : rstr) : rstr := rev (trim_start (rev s)).

(** [str::trim]. *)
Definition trim (s : rstr) : rstr := trim_end (trim_start s).

(** An ASCII literal of the source, as its chars. *)
Fixpoint lit (s : string) : rstr :=
  match s with
  | EmptyString => []
  | String a s' => N_of_ascii a :: lit s'
  end.

(** The Unicode character tables the program uses through the Rust
    standard library and the [regex] crate, on non-ASCII chars (on ASCII
    they are written out below). *)
Record unicode_tables := {
  u_is_nd : rchar -> bool;            (** [\p{Nd}], the regex class [\d] *)
  u_is_word : rchar -> bool;          (** the regex class [\w] *)
  u_to_lower : rchar -> list rchar;   (** [core::unicode::conversions::to_lower] *)
  u_cased : rchar -> bool;            (** [core::unicode::Cased] *)
  u_case_ignorable : rchar -> bool    (** [core::unicode::Case_Ignorable] *)
}.

Definition in_range (lo hi c : rchar) : bool := ((lo <=? c) && (c <=? hi))%N.
Definition is_ascii (c : rchar) : bool := (c <? 0x80)%N.
Definition is_ascii_digit := in_range 0x30%N 0x39%N.
Definition is_ascii_upper := in_range 0x41%N 0x5A%N.
Definition is_ascii_lower := in_range 0x61%N 0x7A%N.
Definition is_ascii_alpha (c : rchar) := is_ascii_upper c || is_ascii_lower c.
(** [u8::to_ascii_lowercase]. *)
Definition ascii_lower (c : rchar) : rchar :=
  if is_ascii_upper c then (c + 0x20)%N else c.

(** [conversions::to_lower] returns at most three chars ([[char; 3]]). *)
Definition tables_lower_short (U : unicode_tables) : Prop :=
  forall c, length (u_to_lower U c) <= 3.

(* ================================================================== *)
(** ** Regular expressions ([regex] crate, [Regex::is_match]) *)

Inductive regex :=
| RClass (p : rchar -> bool)   (** one char of a class *)
| REmpty                       (** the empty string *)
| RStart                       (** [^] (no multi-line flag) *)
| REnd                         (** [$] (no multi-line flag) *)
| RCat (r1 r2 : regex)
| RAlt (r1 r2 : regex)
| RStar (r : regex).

(** All the suffixes left after [r] matches a prefix of [s], where [s] is
    the suffix of a haystack of length [tot]. A repetition of [RStar]
    that consumes nothing adds no new end, so each one is required to
    consume a char. *)
Fixpoint ends (tot : nat) (r : regex) (s : rstr) {struct r} : list rstr :=
  match r with
  | RClass p => match s with c :: s' => if p c then [s'] else [] | [] => [] end
  | REmpty => [s]
  | RStart => if Nat.eqb (length s) tot then [s] else []
  | REnd => match s with [] => [s] | _ :: _ => [] end
  | RCat r1 r2 => flat_map (ends tot r2) (ends tot r1 s)
  | RAlt r1 r2 => ends tot r1 s ++ ends tot r2 s
  | RStar r1 =>
      (fix go (fuel : nat) (s : rstr) {struct fuel} : list rstr :=
         s :: match fuel with
              | O => []
              | S f => flat_map (fun s' => if Nat.ltb (length s') (length s)
                                         then go f s' else [])
                                (ends tot r1 s)
              end) (length s) s
  end.

(** [Regex::is_match]: an unanchored search, a match starting at any
    position of the haystack. *)
Definition is_match (r : regex) (s : rstr) : bool :=
  existsb (fun i => match ends (length s) r (skipn i s) with [] => false | _ => true end)
          (seq 0 (S (length s))).

Definition RLit (c : ascii) : regex := RClass (N.eqb (N_of_ascii c)).
Fixpoint RSeq (rs : list regex) : regex :=
  match rs with [] => REmpty | r :: rs' => RCat r (RSeq rs') end.
Fixpoint RAlts (rs : list regex) : regex :=
  match rs with [] => RClass (fun _ => false) | [r] => r | r :: rs' => RAlt r (RAlts rs') end.
Definition RStr (s : string) : regex := RSeq (map (fun c => RClass (N.eqb c)) (lit s)).
Definition RPlus (r : regex) : regex := RCat r (RStar r).
Definition ROpt (r : regex) : regex := RAlt r REmpty.
Fixpoint RRep (n : nat) (r : regex) : regex :=
  match n with O => REmpty | S n' => RCat r (RRep n' r) end.
Definition RAtLeast (n : nat) (r : regex) : regex := RCat (RRep n r) (RStar r).

(** Character classes. *)
Definition cls_hex (c : rchar) : bool :=
  in_range 0x30%N 0x39%N c || in_range 0x41%N 0x46%N c || in_range 0x61%N 0x66%N c.
Definition cls_not_space (c : rchar) : bool := negb (is_whitespace c).
Definition cls_any_of (s : string) (c : rchar) : bool := existsb (N.eqb c) (lit s).
Definition cls_alnum (c : rchar) : bool := is_ascii_alpha c || is_ascii_digit c.

(* ================================================================== *)
(** ** [content_detector.rs] *)

Inductive ContentType := Color | Url | Email | Phone | Number | Code | Text.

(** [ContentType::as_str]. *)
Definition as_str (t : ContentType) : string :=
  match t with
  | Color => "color" | Url => "links" | Email => "email" | Phone => "phone"
  | Number => "number" | Code => "code" | Text => "text"
  end.

Section Classifier.
Context (U : unicode_tables).

(** [\d]: [\p{Nd}], which is [0-9] on ASCII. *)
Definition cls_digit (c : rchar) : bool :=
  if is_ascii c then is_ascii_digit c else u_is_nd U c.
(** [\w]: [[\p{Alphabetic}\p{M}\p{Nd}\p{Pc}\p{Join_Control}]], which is
    [[0-9A-Za-z_]] on ASCII. *)
Definition cls_word (c : rchar) : bool :=
  if is_ascii c then is_ascii_alpha c || is_ascii_digit c || (c =? 0x5F)%N
  else u_is_word U c.

(** [^#([0-9A-Fa-f]{3}|[0-9A-Fa-f]{6}|[0-9A-Fa-f]{8})$] *)
Definition HEX_COLOR_REGEX : regex :=
  RSeq [RStart; RLit "#";
        RAlts [RRep 3 (RClass cls_hex); RRep 6 (RClass cls_hex); RRep 8 (RClass cls_hex)];
        REnd].

Definition url_tlds : list string :=
  ["com"; "org"; "net"; "edu"; "gov"; "io"; "co"; "app"; "dev"; "tech"; "ai";
   "me"; "info"; "biz"]%string.

(** [^(https?://|www\.)[^\s]+|^[^\s]+\.(com|...|biz)(/[^\s]* )?$]
    (the space before the closing parenthesis is not part of the pattern) *)
Definition URL_REGEX : regex :=
  RAlt
    (RSeq [RStart;
           RAlts [RSeq [RStr "http"; ROpt (RLit "s"); RStr "://"]; RStr "www."];
           RPlus (RClass cls_not_space)])
    (RSeq [RStart; RPlus (RClass cls_not_space); RLit ".";
           RAlts (map RStr url_tlds);
           ROpt (RSeq [RLit "/"; RStar (RClass cls_not_space)]);
           REnd]).

(** [^[a-zA-Z0-9._%+-]+@[a-zA-Z0-9.-]+\.[a-zA-Z]{2,}$] *)
Definition EMAIL_REGEX : regex :=
  RSeq [RStart;
        RPlus (RClass (fun c => cls_alnum c || cls_any_of "._%+-" c));
        RLit "@";
        RPlus (RClass (fun c => cls_alnum c || cls_any_of ".-" c));
        RLit ".";
        RAtLeast 2 (RClass is_ascii_alpha);
        REnd].

(** [^(\+?1?\s?)?(\([0-9]{3}\)|[0-9]{3})[\s\-]?[0-9]{3}[\s\-]?[0-9]{4}$] *)
Definition PHONE_REGEX : regex :=
  let d := RClass is_ascii_digit in
  let sep := ROpt (RClass (fun c => is_whitespace c || (c =? 0x2D)%N)) in
  RSeq [RStart;
        ROpt (RSeq [ROpt (RLit "+"); ROpt (RLit "1"); ROpt (RClass is_whitespace)]);
        RAlts [RSeq [RLit "("; RRep 3 d; RLit ")"]; RRep 3 d];
        sep; RRep 3 d; sep; RRep 4 d; REnd].

(** [^[+-]?(\d+\.?\d*|\.\d+)$] *)
Definition NUMBER_REGEX : regex :=
  let d := RClass cls_digit in
  RSeq [RStart; ROpt (RClass (cls_any_of "+-"));
        RAlts [RSeq [RPlus d; ROpt (RLit "."); RStar d];
               RSeq [RLit "."; RPlus d]];
        REnd].

(** [(function\s+\w+|const\s+\w+\s*=|let\s+\w+\s*=|var\s+\w+\s*=|class\s+\w+|
     def\s+\w+|import\s+|export\s+|return\s+|public\s+|private\s+|
     protected\s+|\{[^}]*\}|;$|\=\>|\:\:)] *)
Definition CODE_REGEX : regex :=
  let sp := RClass is_whitespace in
  let w := RClass cls_word in
  let kw_name (k : string) := RSeq [RStr k; RPlus sp; RPlus w] in
  let kw_assign (k : string) := RSeq [RStr k; RPlus sp; RPlus w; RStar sp; RLit "="] in
  let kw_space (k : string) := RSeq [RStr k; RPlus sp] in
  RAlts [kw_name "function"; kw_assign "const"; kw_assign "let"; kw_assign "var";
         kw_name "class"; kw_name "def"; kw_space "import"; kw_space "export";
         kw_space "return"; kw_space "public"; kw_space "private"; kw_space "protected";
         RSeq [RLit "{"; RStar (RClass (fun c => negb (c =? 0x7D)%N)); RLit "}"];
         RSeq [RLit ";"; REnd];
         RStr "=>"; RStr "::"].

(** [detect_content_type]: first match wins. *)
Definition detect_content_type (content : rstr) : ContentType :=
  let trimmed := trim content in
  match trimmed with
  | [] => Text
  | _ =>
    if is_match HEX_COLOR_REGEX trimmed then Color
    else if is_match URL_REGEX trimmed then Url
    else if is_match EMAIL_REGEX trimmed then Email
    else if is_match PHONE_REGEX trimmed then Phone
    else if is_match NUMBER_REGEX trimmed then Number
    else if is_match CODE_REGEX trimmed then Code
    else Text
  end.

End Classifier.

(* ================================================================== *)
(** ** [app_icons.rs] *)

(** Names, bundle ids and icons are kept as their UTF-8 bytes. *)

(** [APP_ICONS]: bundle id to emoji. *)
Definition APP_ICONS : gmap string string := list_to_map [
  ("com.google.Chrome", "🌐"); ("com.apple.Safari", "🧭");
  ("org.mozilla.firefox", "🦊"); ("com.microsoft.edgemac", "🔷");
  ("com.brave.Browser", "🦁"); ("com.operasoftware.Opera", "🔴");
  ("com.vivaldi.Vivaldi", "🎼");
  ("com.microsoft.VSCode", "💻"); ("com.apple.dt.Xcode", "🔨");
  ("com.jetbrains.intellij", "🧠"); ("com.sublimetext.4", "📝");
  ("com.sublimetext.3", "📝"); ("io.zed.Zed", "⚡");
  ("com.apple.Notes", "📒"); ("notion.id", "📓"); ("com.apple.finder", "📁");
  ("com.apple.TextEdit", "📄"); ("com.apple.Preview", "🖼️");
  ("com.tinyspeck.slackmacgap", "💬"); ("com.apple.MobileSMS", "💭");
  ("us.zoom.xos", "📹"); ("com.microsoft.teams", "👥"); ("com.hnc.Discord", "🎮");
  ("com.apple.Terminal", "🖥️"); ("com.googlecode.iterm2", "⌨️");
  ("dev.warp.Warp-Stable", "🚀");
  ("com.figma.Desktop", "🎨"); ("com.bohemiancoding.sketch3", "✏️");
  ("com.spotify.client", "🎵"); ("com.apple.mail", "📧")]%string.

(** [APP_NAME_ICONS]: app name to emoji. *)
Definition APP_NAME_ICONS : gmap string string := list_to_map [
  ("Google Chrome", "🌐"); ("Safari", "🧭"); ("Firefox", "🦊");
  ("Microsoft Edge", "🔷"); ("Brave Browser", "🦁"); ("Opera", "🔴");
  ("Vivaldi", "🎼");
  ("Visual Studio Code", "💻"); ("Code", "💻"); ("Xcode", "🔨");
  ("IntelliJ IDEA", "🧠"); ("Sublime Text", "📝"); ("Zed", "⚡");
  ("Notes", "📒"); ("Notion", "📓"); ("Finder", "📁"); ("TextEdit", "📄");
  ("Preview", "🖼️");
  ("Slack", "💬"); ("Messages", "💭"); ("zoom.us", "📹");
  ("Microsoft Teams", "👥"); ("Discord", "🎮");
  ("Terminal", "🖥️"); ("iTerm2", "⌨️"); ("iTerm", "⌨️"); ("Warp", "🚀");
  ("Figma", "🎨"); ("Sketch", "✏️");
  ("Spotify", "🎵"); ("Mail", "📧")]%string.

Definition DEFAULT_ICON : string := "📋".

Definition get_icon_by_bundle_id (bundle_id : string) : option string :=
  APP_ICONS !! bundle_id.

Definition get_icon_by_name (app_name : string) : option string :=
  APP_NAME_ICONS !! app_name.

(** [get_app_icon]: bundle-id table, then name table, then the default. *)
Definition get_app_icon (bundle_id : option string) (app_name : string) : string :=
  match match bundle_id with Some bid => get_icon_by_bundle_id bid | None => None end with
  | Some icon => icon
  | None =>
      match get_icon_by_name app_name with
      | Some icon => icon
      | None => DEFAULT_ICON
      end
  end.

(** [ICON_CACHE]: bundle id to the result of the native lookup, misses
    included. The [Mutex] is never poisoned (no code panics while holding
    it), so each [lock()] succeeds. *)
Abbreviation IconCache := (gmap string (option string)).

(** [get_system_icon], threading the cache; [fetch] is [fetch_system_icon]
    (the AppKit lookup on macOS, [fun _ => None] elsewhere). *)
Definition get_system_icon (fetch : string -> option string) (cache : IconCache)
    (bundle_id : string) : option string * IconCache :=
  match cache !! bundle_id with
  | Some cached => (cached, cache)
  | None =>
      let icon := fetch bundle_id in
      (icon, <[bundle_id := icon]> cache)
  end.

(** The command [get_app_icon_data]: the native icon first, then the
    emoji of [get_app_icon]. *)
Definition get_app_icon_data (fetch : string -> option string) (cache : IconCache)
    (bundle_id : option string) (app_name : string) : string * IconCache :=
  match bundle_id with
  | Some bid =>
      match get_system_icon fetch cache bid with
      | (Some icon_data, cache') => (icon_data, cache')
      | (None, cache') => (get_app_icon bundle_id app_name, cache')
      end
  | None => (get_app_icon bundle_id app_name, cache)
  end.

(** [AppInfo] of [app_detector.rs]. *)
Record AppInfo := mkAppInfo { app_name : string; app_bundle_id : option string }.

(* ================================================================== *)
(** ** [clipboard_monitor.rs]: the text path *)

Section TextPolicy.
Context (U : unicode_tables).

(** [char::to_lowercase] ([conversions::to_lower], ASCII done directly). *)
Definition char_to_lower (c : rchar) : list rchar :=
  if is_ascii c then [ascii_lower c] else u_to_lower U c.

(** [Cased] and [Case_Ignorable], written out on ASCII. *)
Definition is_cased (c : rchar) : bool :=
  if is_ascii c then is_ascii_alpha c else u_cased U c.
Definition is_case_ignorable (c : rchar) : bool :=
  if is_ascii c then existsb (N.eqb c) [0x27; 0x2E; 0x3A; 0x5E; 0x60]%N
  else u_case_ignorable U c.

Fixpoint skip_while (p : rchar -> bool) (s : rstr) : rstr :=
  match s with c :: s' => if p c then skip_while p s' else s | [] => [] end.

Definition case_ignorable_then_cased (cs : rstr) : bool :=
  match skip_while is_case_ignorable cs with c :: _ => is_cased c | [] => false end.

(** [str::to_lowercase]; [before] is the part already read, reversed. A
    capital sigma (U+03A3) becomes the final sigma (U+03C2) at the end of
    a word and U+03C3 elsewhere. *)
Fixpoint to_lowercase_from (before : rstr) (s : rstr) : rstr :=
  match s with
  | [] => []
  | c :: rest =>
      (if (c =? 0x3A3)%N
       then [if case_ignorable_then_cased before && negb (case_ignorable_then_cased rest)
             then 0x3C2%N else 0x3C3%N]
       else char_to_lower c) ++ to_lowercase_from (c :: before) rest
  end.

Definition to_lowercase (s : rstr) : rstr := to_lowercase_from [] s.

Fixpoint is_prefix (p s : rstr) : bool :=
  match p, s with
  | [], _ => true
  | a :: p', b :: s' => (a =? b)%N && is_prefix p' s'
  | _ :: _, [] => false
  end.

(** [str::contains] with a [&str] needle. *)
Definition contains (hay needle : rstr) : bool :=
  existsb (fun i => is_prefix needle (skipn i hay)) (seq 0 (S (length hay))).

Definition ignore_patterns : list string :=
  ["[log]"; "[error]"; "[warn]"; "[info]"; "[debug]"; "console.";
   "clipboard changed event"; "saved clipboard item"; ".ts:"; ".js:";
   "(clipboardstore"; "(database.ts"]%string.

(** [should_ignore_content]. *)
Definition should_ignore_content (content : rstr) : bool :=
  if Nat.ltb (str_len (trim content)) 2 then true
  else
    let lower := to_lowercase content in
    existsb (fun pattern => contains lower (lit pattern)) ignore_patterns.

End TextPolicy.

(** The fields of [ClipboardMonitor] (each behind its own lock). *)
Record ClipboardMonitor := mkMonitor {
  is_running : bool;
  last_content : rstr;
  last_image_hash : rstr;
  last_timestamp : Z;
  debounce_ms : Z
}.

(** [ClipboardMonitor::new]. *)
Definition new_monitor : ClipboardMonitor := mkMonitor false [] [] 0 1000.

(** [i64] subtraction in a release build (wrapping). *)
Definition wrap_i64 (z : Z) : Z := ((z + 2 ^ 63) mod 2 ^ 64 - 2 ^ 63)%Z.

(** [should_save]. *)
Definition should_save (U : unicode_tables) (m : ClipboardMonitor) (new_content : rstr)
    (current_time : Z) : bool :=
  if should_ignore_content U new_content then false
  else if decide (new_content = last_content m) then
    let time_diff := wrap_i64 (current_time - last_timestamp m) in
    (time_diff >? debounce_ms m)%Z
  else true.

(** [map_content_type_to_category]. *)
Definition map_content_type_to_category (t : ContentType) : string :=
  match t with
  | Color => "color" | Url => "links" | Email => "email" | Phone => "phone"
  | Number => "number" | Code => "code" | Text => "text"
  end.

(** The JSON payload of the "clipboard-changed" event for a text. *)
Record TextRecord := {
  rec_content : rstr;
  rec_contentType : string;
  rec_category : string;
  rec_isImage : bool;
  rec_sourceAppName : string;
  rec_sourceAppIcon : string;
  rec_sourceBundleId : option string
}.

(** [save_to_database]: [app_info] is the result of [get_frontmost_app()]. *)
Definition save_to_database (U : unicode_tables) (app_info : AppInfo) (content : rstr)
    : TextRecord :=
  let content_type := detect_content_type U content in
  let content_type_str := as_str content_type in
  let category := map_content_type_to_category content_type in
  {| rec_content := content;
     rec_contentType := content_type_str;
     rec_category := category;
     rec_isImage := false;
     rec_sourceAppName := app_name app_info;
     rec_sourceAppIcon := get_app_icon (app_bundle_id app_info) (app_name app_info);
     rec_sourceBundleId := app_bundle_id app_info |}.

(* ================================================================== *)
(** ** Floating point (the [f32] / [f64] operations of the thumbnail) *)

(** The nearest integer to [n / d] ([d > 0]), ties to even. *)
Definition round_half_even (n d : Z) : Z :=
  let q := (n / d)%Z in
  let r := (n mod d)%Z in
  if (2 * r <? d)%Z then q
  else if (d <? 2 * r)%Z then (q + 1)%Z
  else if Z.even q then q else (q + 1)%Z.

(** [n * 2^k / d] as a numerator and a denominator. *)
Definition mul_pow2 (n d k : Z) : Z * Z :=
  if (0 <=? k)%Z then (n * 2 ^ k, d)%Z else (n, d * 2 ^ (- k))%Z.

(** IEEE 754 rounding to nearest, ties to even, of a non-negative rational
    to a binary float with a [prec]-bit significand. All the values of the
    thumbnail computation lie between [2^-32] and [2^42], inside the normal
    range of [f32] and [f64], so no exponent bound is needed. *)
Definition round_float (prec : Z) (x : Q) : Q :=
  let n := Qnum x in
  let d := Zpos (Qden x) in
  if (n <=? 0)%Z then 0%Q
  else
    let l := (Z.log2 n - Z.log2 d)%Z in
    (* the exponent [e] with [2^e <= n/d < 2^(e+1)] *)
    let e := let '(a, b) := mul_pow2 n d (- l) in if (b <=? a)%Z then l else (l - 1)%Z in
    let k := (prec - 1 - e)%Z in
    let '(a, b) := mul_pow2 n d k in
    let m := round_half_even a b in
    if (0 <=? k)%Z then Qmake m (Z.to_pos (2 ^ k)) else inject_Z (m * 2 ^ (- k)).

Definition fl32 : Q -> Q := round_float 24.
Definition fl64 : Q -> Q := round_float 53.

(** [u32 as f32] rounds; [u32 as f64] is exact. *)
Definition f32_of_u32 (n : Z) : Q := fl32 (inject_Z n).
Definition f64_of_u32 (n : Z) : Q := inject_Z n.

(** [x.trunc()] and [x.round()] (half away from zero) for [x >= 0]. *)
Definition q_trunc (x : Q) : Z := (Qnum x / Zpos (Qden x))%Z.
Definition q_round (x : Q) : Z := q_trunc (x + (1 # 2)).

Definition U32_MAX : Z := 4294967295.
Definition U64_MAX : Z := 18446744073709551615.

(** Float-to-int [as] casts saturate (no NaN or negative value occurs). *)
Definition f_as_u32 (x : Q) : Z := Z.min (q_trunc x) U32_MAX.
Definition f_as_u64 (x : Q) : Z := Z.min (q_trunc x) U64_MAX.

(** [f64::min] on non-NaN operands. *)
Definition qmin (a b : Q) : Q := if Qle_bool a b then a else b.

(* ================================================================== *)
(** ** [image_handler.rs] *)

(** [image] 0.25, [math::utils::resize_dimensions] (library code). *)
Definition resize_dimensions (width height nwidth nheight : Z) (fill : bool) : Z * Z :=
  let wratio := fl64 (f64_of_u32 nwidth / f64_of_u32 width) in
  let hratio := fl64 (f64_of_u32 nheight / f64_of_u32 height) in
  let ratio := if fill then (if Qle_bool wratio hratio then hratio else wratio)
               else qmin wratio hratio in
  let nw := Z.max (f_as_u64 (inject_Z (q_round (fl64 (f64_of_u32 width * ratio))))) 1 in
  let nh := Z.max (f_as_u64 (inject_Z (q_round (fl64 (f64_of_u32 height * ratio))))) 1 in
  if (U32_MAX <? nw)%Z then
    let ratio := fl64 (f64_of_u32 U32_MAX / f64_of_u32 width) in
    (U32_MAX, Z.max (f_as_u32 (inject_Z (q_round (fl64 (f64_of_u32 height * ratio))))) 1)
  else if (U32_MAX <? nh)%Z then
    let ratio := fl64 (f64_of_u32 U32_MAX / f64_of_u32 height) in
    (Z.max (f_as_u32 (inject_Z (q_round (fl64 (f64_of_u32 width * ratio))))) 1, U32_MAX)
  else (nw, nh).

(** The dimensions of [DynamicImage::resize(nwidth, nheight, _)] (library
    code): the image is scaled, keeping its aspect ratio, to the largest
    size that fits in [nwidth x nheight]. *)
Definition resize_dims (width height nwidth nheight : Z) : Z * Z :=
  if ((nwidth =? width) && (nheight =? height))%Z then (width, height)
  else resize_dimensions width height nwidth nheight false.

Definition max_dimension : Z := 400.

(** [generate_thumbnail], on the dimensions of the image. *)
Definition generate_thumbnail (width height : Z) : Z * Z :=
  if ((width <=? max_dimension) && (height <=? max_dimension))%Z then (width, height)
  else
    let '(new_width, new_height) :=
      if (height <? width)%Z then
        let ratio := fl32 (f32_of_u32 max_dimension / f32_of_u32 width) in
        (max_dimension, f_as_u32 (fl32 (f32_of_u32 height * ratio)))
      else
        let ratio := fl32 (f32_of_u32 max_dimension / f32_of_u32 height) in
        (f_as_u32 (fl32 (f32_of_u32 width * ratio)), max_dimension) in
    resize_dims width height new_width new_height.

(** An RGB8 image ([img.to_rgb8()]): channels are [u8] values. *)
Record RgbImage := mkRgbImage {
  img_width : nat;
  img_height : nat;
  get_pixel : nat -> nat -> Z * Z * Z
}.

(** [Iterator::step_by]: the first element, then every [step]-th. *)
Fixpoint step_by_from (fuel : nat) (xs : list nat) (step : nat) : list nat :=
  match fuel with
  | O => []
  | S f =>
      match xs with
      | [] => []
      | x :: rest => x :: step_by_from f (skipn (step - 1) rest) step
      end
  end.

Definition step_by (xs : list nat) (step : nat) : list nat :=
  step_by_from (length xs) xs step.

(** [{:02X}] of a [u8]. *)
Definition hex_upper (d : Z) : ascii :=
  ascii_of_nat (Z.to_nat (if (d <? 10)%Z then 48 + d else 55 + d)%Z).
Definition fmt_02X (v : Z) : string :=
  String (hex_upper (v / 16)) (String (hex_upper (v mod 16)) EmptyString).

(** The pixels visited by the two loops, in order. *)
Definition sampled_pixels (img : RgbImage) (sample_rate : nat) : list (nat * nat) :=
  flat_map (fun y => map (fun x => (x, y)) (step_by (seq 0 (img_width img)) sample_rate))
           (step_by (seq 0 (img_height img)) sample_rate).

(** [extract_dominant_color]. The [u64] sums cannot overflow: that would
    need more than [2^64 / 255] samples, an RGB buffer larger than
    [isize::MAX] bytes. *)
Definition accumulate_pixel (img : RgbImage) (acc : Z * Z * Z * Z) (p : nat * nat)
    : Z * Z * Z * Z :=
  let '(r, g, b, c) := acc in
  let '(x, y) := p in
  let '(pr, pg, pb) := get_pixel img x y in
  (r + pr, g + pg, b + pb, c + 1)%Z.

Definition extract_dominant_color (img : RgbImage) : option string :=
  let sample_rate := 10 in
  let '(r_sum, g_sum, b_sum, count) :=
    fold_left (accumulate_pixel img) (sampled_pixels img sample_rate) (0, 0, 0, 0)%Z in
  if (count =? 0)%Z then None
  else
    let r_avg := ((r_sum / count) mod 256)%Z in
    let g_avg := ((g_sum / count) mod 256)%Z in
    let b_avg := ((b_sum / count) mod 256)%Z in
    Some ("#" ++ fmt_02X r_avg ++ fmt_02X g_avg ++ fmt_02X b_avg)%string.

(* ================================================================== *)
(** ** [clipboard_monitor.rs]: the image path *)

(** [format!("{:x}", n)] of a [u64]: lower-case hex, no leading zero. *)
Fixpoint hex_lower_digits (fuel : nat) (n : Z) (acc : rstr) : rstr :=
  match fuel with
  | O => acc
  | S f =>
      let d := (n mod 16)%Z in
      let acc' := Z.to_N (if (d <? 10)%Z then 48 + d else 87 + d)%Z :: acc in
      if (n / 16 =? 0)%Z then acc' else hex_lower_digits f (n / 16) acc'
  end.

Definition fmt_lower_hex (n : Z) : rstr := hex_lower_digits 16 n [].

(** What the world answers during one call of [handle_clipboard_image]. *)
Record ImageEnv := mkImageEnv {
  env_settings_max_mb : option Z;  (** [AppSettings::load]: [Ok] gives the [i32] [max_image_size_mb] *)
  env_app_data_dir_ok : bool;      (** [app.path().app_data_dir()] *)
  env_decoded : option RgbImage;   (** [image::load_from_memory] *)
  env_create_dir_ok : bool;        (** [fs::create_dir_all] *)
  env_save_image_ok : bool;        (** saving the original PNG *)
  env_save_thumbnail_ok : bool;    (** saving the thumbnail PNG *)
  env_frontmost_app : AppInfo      (** [get_frontmost_app()] *)
}.

(** Files written and events emitted. *)
Inductive ImageEffect :=
| WroteImage
| WroteThumbnail (width height : Z)
| EmittedImage (width height : Z) (dominant_color : option string) (source_app_icon : string).

(** [save_clipboard_image]: [Some (width, height, dominant_color)] on
    success, with the files it wrote (also on failure). *)
Definition save_clipboard_image (env : ImageEnv) (image_data : list N)
    : option (Z * Z * option string) * list ImageEffect :=
  match env_decoded env with
  | None => (None, [])
  | Some img =>
      if negb (env_create_dir_ok env) then (None, [])
      else if negb (env_save_image_ok env) then (None, [])
      else
        let width := Z.of_nat (img_width img) in
        let height := Z.of_nat (img_height img) in
        let '(tw, th) := generate_thumbnail width height in
        if negb (env_save_thumbnail_ok env) then (None, [WroteImage])
        else (Some (width, height, extract_dominant_color img),
              [WroteImage; WroteThumbnail tw th])
  end.

(** [(settings.max_image_size_mb as u64) * 1024 * 1024], wrapping. *)
Definition max_size_bytes_of (settings : option Z) : Z :=
  match settings with
  | Some mb => ((((mb mod 2 ^ 64) * 1024) mod 2 ^ 64) * 1024 mod 2 ^ 64)%Z
  | None => (10 * 1024 * 1024)%Z
  end.

Section ImagePath.
(** [DefaultHasher] (SipHash-1-3, fixed keys) fed with [image_data.hash]. *)
Context (hash_u64 : list N -> Z).

(** [handle_clipboard_image]; [save_image_to_database] emits the record
    and always returns [Ok]. *)
Definition handle_clipboard_image (m : ClipboardMonitor) (env : ImageEnv)
    (image_data : list N) : ClipboardMonitor * list ImageEffect :=
  let image_hash := fmt_lower_hex (hash_u64 image_data) in
  if decide (last_image_hash m = image_hash) then (m, [])
  else
    let max_size_bytes := max_size_bytes_of (env_settings_max_mb env) in
    if (max_size_bytes <? Z.of_nat (length image_data))%Z then (m, [])
    else if negb (env_app_data_dir_ok env) then (m, [])
    else
      match save_clipboard_image env image_data with
      | (Some (w, h, dominant), effects) =>
          (mkMonitor (is_running m) (last_content m) image_hash
                     (last_timestamp m) (debounce_ms m),
           effects ++ [EmittedImage w h dominant
                          (get_app_icon (app_bundle_id (env_frontmost_app env))
                                        (app_name (env_frontmost_app env)))])
      | (None, effects) => (m, effects)
      end.

(** Two successive submissions of the same bytes. *)
Definition handle_twice (m : ClipboardMonitor) (env1 env2 : ImageEnv) (image_data : list N)
    : ClipboardMonitor * list ImageEffect :=
  let '(m1, e1) := handle_clipboard_image m env1 image_data in
  let '(m2, e2) := handle_clipboard_image m1 env2 image_data in
  (m2, e1 ++ e2).

End ImagePath.

Definition count_images (effs : list ImageEffect) : nat :=
  length (List.filter (fun e => match e with WroteImage => true | _ => false end) effs).
Definition count_emitted (effs : list ImageEffect) : nat :=
  length (List.filter (fun e => match e with EmittedImage _ _ _ _ => true | _ => false end) effs).

Definition count_thumbnails (effs : list ImageEffect) : nat :=
  length (List.filter (fun e => match e with WroteThumbnail _ _ => true | _ => false end) effs).

(** A save that went through: both files written and the record emitted. *)
Definition fully_saved (effs : list ImageEffect) : Prop :=
  count_images effs = 1 /\ count_thumbnails effs = 1 /\ count_emitted effs = 1.

(* ================================================================== *)
(** ** [clipboard_monitor.rs]: the lifecycle *)

(** A spawned [monitor_loop] task: about to test [is_running] at the top
    of the [while], or inside an iteration (its body and the 500 ms
    sleep). A task that reads [false] at the top returns. *)
Inductive TaskPhase := AtLoopTop | InIteration.

Record Runtime := mkRuntime {
  rt_monitor : ClipboardMonitor;
  rt_tasks : list TaskPhase
}.

Definition set_running (b : bool) (m : ClipboardMonitor) : ClipboardMonitor :=
  mkMonitor b (last_content m) (last_image_hash m) (last_timestamp m) (debounce_ms m).

Definition initial_runtime : Runtime := mkRuntime new_monitor [].

(** [start]: the test and the update are under the lock; the spawned
    task starts at the top of its loop. *)
Definition start (rt : Runtime) : Runtime :=
  if is_running (rt_monitor rt) then rt
  else mkRuntime (set_running true (rt_monitor rt)) (rt_tasks rt ++ [AtLoopTop]).

(** [stop]. *)
Definition stop (rt : Runtime) : Runtime :=
  mkRuntime (set_running false (rt_monitor rt)) (rt_tasks rt).

(** [is_running()]. *)
Definition is_running_cmd (rt : Runtime) : bool := is_running (rt_monitor rt).

(** One step of the task number [i]. *)
Definition task_step (i : nat) (rt : Runtime) : Runtime :=
  match rt_tasks rt !! i with
  | Some AtLoopTop =>
      if is_running (rt_monitor rt)
      then mkRuntime (rt_monitor rt) (<[i := InIteration]> (rt_tasks rt))
      else mkRuntime (rt_monitor rt) (delete i (rt_tasks rt))
  | Some InIteration => mkRuntime (rt_monitor rt) (<[i := AtLoopTop]> (rt_tasks rt))
  | None => rt
  end.

(** The live [monitor_loop] tasks. *)
Definition active_cycles (rt : Runtime) : nat := length (rt_tasks rt).

(** Tables for running the model on concrete inputs: no non-ASCII char
    is a digit, a word char or cased, and lower-casing leaves it alone. *)
Definition ascii_tables : unicode_tables := {|
  u_is_nd := fun _ => false;
  u_is_word := fun _ => false;
  u_to_lower := fun c => [c];
  u_cased := fun _ => false;
  u_case_ignorable := fun _ => false
|}.

Definition detect_ascii (s : string) : ContentType :=
  detect_content_type ascii_tables (lit s).

(* ================================================================== *)
(** ** [clipboard_monitor.rs]: one iteration of [monitor_loop] *)

(** [read_clipboard]. *)
Inductive ReadResult := ReadOk (text : option rstr) | ReadErr.

(** [read_text()] gives [None] on an error; an empty text is [Ok(None)]. *)
Definition read_clipboard (raw : option rstr) : ReadResult :=
  match raw with
  | None => ReadErr
  | Some text => ReadOk (match text with [] => None | _ => Some text end)
  end.

(** What the world answers during one iteration of the loop. *)
Record PollEnv := mkPollEnv {
  poll_save_images : option bool;          (** [AppSettings::load]: [Ok] gives [save_images] *)
  poll_image : option (list N * ImageEnv); (** [read_clipboard_image()], and the world
                                               during [handle_clipboard_image] *)
  poll_text : option rstr;                 (** [read_text()] *)
  poll_time : Z;                           (** [as_millis() as i64] of [SystemTime::now()] *)
  poll_app : AppInfo                       (** [get_frontmost_app()] in [save_to_database] *)
}.

(** Files written and events emitted by the loop. *)
Inductive PollEffect := PollImage (e : ImageEffect) | PollText (r : TextRecord).

(** The body of the [while] of [monitor_loop] (the 500 ms sleep apart). *)
Definition monitor_iteration (U : unicode_tables) (hash_u64 : list N -> Z)
    (m : ClipboardMonitor) (env : PollEnv) : ClipboardMonitor * list PollEffect :=
  let save_images := match poll_save_images env with Some b => b | None => true end in
  match (if save_images then poll_image env else None) with
  | Some (image_data, ienv) =>
      let '(m', effs) := handle_clipboard_image hash_u64 m ienv image_data in
      (m', map PollImage effs)
  | None =>
      match read_clipboard (poll_text env) with
      | ReadOk (Some content) =>
          let current_time := poll_time env in
          if should_save U m content current_time then
            (mkMonitor (is_running m) content (last_image_hash m) current_time (debounce_ms m),
             [PollText (save_to_database U (poll_app env) content)])
          else (m, [])
      | _ => (m, [])
      end
  end.

(** Successive iterations. *)
Fixpoint run_iterations (U : unicode_tables) (hash_u64 : list N -> Z) (m : ClipboardMonitor)
    (envs : list PollEnv) : ClipboardMonitor * list PollEffect :=
  match envs with
  | [] => (m, [])
  | env :: envs' =>
      let '(m1, e1) := monitor_iteration U hash_u64 m env in
      let '(m2, e2) := run_iterations U hash_u64 m1 envs' in
      (m2, e1 ++ e2)
  end.

Definition text_records (effs : list PollEffect) : list TextRecord :=
  flat_map (fun e => match e with PollText r => [r] | PollImage _ => [] end) effs.

(** Iterations [500 * k] ms after [t0] ([k = 1 .. n]) that find the same
    text and no image on the clipboard. *)
Definition steady_text_polls (app : AppInfo) (content : rstr) (t0 : Z) (start n : nat)
    : list PollEnv :=
  map (fun k => mkPollEnv (Some true) None (Some content) (t0 + 500 * Z.of_nat k)%Z app)
      (seq (S start) n).

(* ================================================================== *)
(** ** [image_handler.rs]: file names and [get_image_base64] *)

(** [format!("{}", n)] of an unsigned integer (a [u128] has at most 39
    digits). *)
Fixpoint dec_digits (fuel : nat) (n : Z) (acc : rstr) : rstr :=
  match fuel with
  | O => acc
  | S f =>
      let acc' := Z.to_N (48 + n mod 10)%Z :: acc in
      if (n / 10 =? 0)%Z then acc' else dec_digits f (n / 10) acc'
  end.

Definition fmt_dec (n : Z) : rstr := dec_digits 40 n [].

(** [format!("{}_{}.png", timestamp, random_suffix)]. *)
Definition image_filename (timestamp random_suffix : Z) : rstr :=
  fmt_dec timestamp ++ lit "_" ++ fmt_dec random_suffix ++ lit ".png".

(** [format!("{}_{}_thumb.png", timestamp, random_suffix)]. *)
Definition thumbnail_filename (timestamp random_suffix : Z) : rstr :=
  fmt_dec timestamp ++ lit "_" ++ fmt_dec random_suffix ++ lit "_thumb.png".

(** Unix paths ([std::path]). The pieces of a path between ['/']. *)
Fixpoint split_on (sep : rchar) (s : rstr) : list rstr :=
  match s with
  | [] => [[]]
  | c :: s' =>
      let rest := split_on sep s' in
      if (c =? sep)%N then [] :: rest
      else match rest with r :: rs => (c :: r) :: rs | [] => [[c]] end
  end.

(** [Path::file_name]: the last component if it is a normal one; empty
    pieces and ["."] are not components (a leading ["."] is [CurDir],
    which is not normal either). *)
Definition path_file_name (p : rstr) : option rstr :=
  match last (List.filter (fun c => negb (bool_decide (c = [])) && negb (bool_decide (c = lit ".")))
                          (split_on 0x2F%N p)) with
  | None => None
  | Some c => if bool_decide (c = lit "..") then None else Some c
  end.

(** [rsplit_file_at_dot] and [Path::extension]: the text after the last
    ['.'] of the file name, unless there is no ['.'] or the only text
    before it is empty. *)
Fixpoint break_at_dot (r : rstr) : option (rstr * rstr) :=
  match r with
  | [] => None
  | c :: r' => if (c =? 0x2E)%N then Some ([], r')
               else match break_at_dot r' with
                    | Some (a, b) => Some (c :: a, b)
                    | None => None
                    end
  end.

Definition file_extension (name : rstr) : option rstr :=
  if bool_decide (name = lit "..") then None
  else match break_at_dot (rev name) with
       | None => None
       | Some (_, []) => None
       | Some (after_rev, _) => Some (rev after_rev)
       end.

Definition path_extension (p : rstr) : option rstr :=
  match path_file_name p with Some name => file_extension name | None => None end.

Definition has_root (p : rstr) : bool :=
  match p with c :: _ => (c =? 0x2F)%N | [] => false end.

(** [Path::join] ([PathBuf::push]): an absolute name replaces the path;
    otherwise a ['/'] is added unless the path is empty or already ends
    with one. *)
Definition path_join (dir name : rstr) : rstr :=
  if has_root name then name
  else match last dir with
       | Some c => if (c =? 0x2F)%N then dir ++ name else dir ++ [0x2F%N] ++ name
       | None => name
       end.

(** The MIME type chosen by [get_image_base64]. *)
Definition mime_type_of (ext : option rstr) : string :=
  match ext with
  | Some e =>
      if bool_decide (e = lit "png") then "image/png"
      else if bool_decide (e = lit "jpg") || bool_decide (e = lit "jpeg") then "image/jpeg"
      else if bool_decide (e = lit "gif") then "image/gif"
      else if bool_decide (e = lit "webp") then "image/webp"
      else "image/png"
  | None => "image/png"
  end.

(** [get_image_base64]: [exists_] is [path.exists()], [read] the result of
    [fs::read] (an error as its message), [encode] is [STANDARD.encode];
    errors are [inl]. *)
Definition get_image_base64 (exists_ : bool) (read : rstr + list N)
    (encode : list N -> rstr) (image_path : rstr) : rstr + rstr :=
  if negb exists_ then inl (lit "Image file not found: " ++ image_path)
  else match read with
       | inl e => inl (lit "Failed to read image: " ++ e)
       | inr data =>
           inr (lit "data:" ++ lit (mime_type_of (path_extension image_path)) ++ lit ";base64,"
                ++ encode data)
       end.

(* ================================================================== *)
(** ** [clipboard_monitor.rs]: [truncate_for_display] *)

(** [&text[..n]]: [None] when [n] is past the end or inside a char
    (the slice panics). *)
Fixpoint str_prefix_bytes (s : rstr) (n : nat) : option rstr :=
  match s with
  | [] => if n =? 0 then Some [] else None
  | c :: s' =>
      if n =? 0 then Some []
      else if len_utf8 c <=? n then option_map (cons c) (str_prefix_bytes s' (n - len_utf8 c))
      else None
  end.

(** [truncate_for_display] ([#[allow(dead_code)]]); [None] is a panic. *)
Definition truncate_for_display (text : rstr) (max_len : nat) : option rstr :=
  if str_len text <=? max_len then Some text
  else match str_prefix_bytes text max_len with
       | Some p => Some (p ++ lit "...")
       | None => None
       end.

(* ================================================================== *)
(** ** [app_icons.rs]: successive [get_app_icon_data] calls *)

(** Commands [get_app_icon_data bundle_id app_name] run one after the
    other, each with the native lookup of its time, sharing [ICON_CACHE]. *)
Fixpoint icon_requests (cache : IconCache)
    (calls : list ((string -> option string) * option string * string))
    : list string * IconCache :=
  match calls with
  | [] => ([], cache)
  | (fetch, bundle_id, app_name) :: calls' =>
      let '(r, cache1) := get_app_icon_data fetch cache bundle_id app_name in
      let '(rs, cache2) := icon_requests cache1 calls' in
      (r :: rs, cache2)
  end.

(* ================================================================== *)
(** ** Auxiliary notions of the proofs *)

(** The value of a digit of [fmt_lower_hex] or [fmt_dec]. *)
Definition digit_value (c : rchar) : Z :=
  let z := Z.of_N c in if (z <? 97)%Z then (z - 48)%Z else (z - 87)%Z.

(** The number a digit string denotes in base [base]. *)
Definition digits_value (base : Z) (l : rstr) : Z :=
  fold_left (fun v c => base * v + digit_value c)%Z l 0%Z.

(** The text kept as [last_content]: nothing yet, or a text that passed
    the ignore filter. *)
Definition kept_text_ok (U : unicode_tables) (s : rstr) : Prop :=
  s = [] \/ should_ignore_content U s = false.

(** The parts of [PHONE_REGEX]: optional prefix, area code, separator,
    and the rest after the prefix. *)
Definition phone_prefix : regex :=
  ROpt (RSeq [ROpt (RLit "+"); ROpt (RLit "1"); ROpt (RClass is_whitespace)]).
Definition phone_sep : regex := ROpt (RClass (fun c => is_whitespace c || (c =? 0x2D)%N)).
Definition phone_area : regex :=
  RAlts [RSeq [RLit "("; RRep 3 (RClass is_ascii_digit); RLit ")"]; RRep 3 (RClass is_ascii_digit)].
Definition phone_rest : regex :=
  RCat phone_area (RCat phone_sep (RCat (RRep 3 (RClass is_ascii_digit))
    (RCat phone_sep (RCat (RRep 4 (RClass is_ascii_digit)) (RCat REnd REmpty))))).

(* ================================================================== *)
(** ** Readings of the specification *)

(** "#" followed by exactly 3, 6 or 8 hex digits. *)
Definition hex_color_shape (t : rstr) : Prop :=
  exists h, t = 0x23%N :: h /\ forallb cls_hex h = true /\
            (length h = 3 \/ length h = 6 \/ length h = 8).

(** The sampling grid of the specification: the indices below [n] that
    are multiples of 10. *)
Definition grid_coords (n : nat) : list nat :=
  List.filter (fun i => Nat.eqb (i mod 10) 0) (seq 0 n).

(** The grid points of an image, row by row. *)
Definition grid_samples (img : RgbImage) : list (nat * nat) :=
  flat_map (fun y => map (fun x => (x, y)) (grid_coords (img_width img)))
           (grid_coords (img_height img)).

Definition ch_r (p : Z * Z * Z) : Z := fst (fst p).
Definition ch_g (p : Z * Z * Z) : Z := snd (fst p).
Definition ch_b (p : Z * Z * Z) : Z := snd p.

(** The sum of one channel over some points. *)
Definition channel_total (ch : Z * Z * Z -> Z) (img : RgbImage) (pts : list (nat * nat)) : Z :=
  fold_right (fun p acc => (ch (get_pixel img (fst p) (snd p)) + acc)%Z) 0%Z pts.

(** Two upper-case hexadecimal digits, read from a digit table. *)
Definition upper_hex_digits : string := "0123456789ABCDEF".
Definition hex_pair (v : Z) : string :=
  match get (Z.to_nat (v / 16)) upper_hex_digits, get (Z.to_nat (v mod 16)) upper_hex_digits with
  | Some a, Some b => String a (String b EmptyString)
  | _, _ => EmptyString
  end.

(** The specified result: the floor average of each channel over the
    grid, as [#RRGGBB]; none when the grid is empty. *)
Definition spec_dominant_color (img : RgbImage) : option string :=
  let pts := grid_samples img in
  let n := Z.of_nat (length pts) in
  match pts with
  | [] => None
  | _ => Some ("#" ++ hex_pair (channel_total ch_r img pts / n)
                   ++ hex_pair (channel_total ch_g img pts / n)
                   ++ hex_pair (channel_total ch_b img pts / n))%string
  end.

(** An [RgbImage] from [to_rgb8]: every channel of every pixel is a [u8]. *)
Definition pixels_are_u8 (img : RgbImage) : Prop :=
  forall x y, x < img_width img -> y < img_height img ->
    (0 <= ch_r (get_pixel img x y) <= 255 /\ 0 <= ch_g (get_pixel img x y) <= 255 /\
     0 <= ch_b (get_pixel img x y) <= 255)%Z.

Definition uniform_image (w h : nat) (px : Z * Z * Z) : RgbImage :=
  mkRgbImage w h (fun _ _ => px).

(** The first lookup that answers, else the fallback. *)
Fixpoint first_some (xs : list (option string)) (fallback : string) : string :=
  match xs with
  | [] => fallback
  | Some x :: _ => x
  | None :: xs' => first_some xs' fallback
  end.

(** The icon resolution order of the specification: (a) the native icon
    of the bundle id, (b) the bundle-id table, (c) the name table, (d) the
    generic glyph. *)
Definition spec_icon_order (fetch : string -> option string) (bundle_id : option string)
    (name : string) : string :=
  first_some [match bundle_id with Some b => fetch b | None => None end;
              match bundle_id with Some b => get_icon_by_bundle_id b | None => None end;
              get_icon_by_name name] DEFAULT_ICON.

(** The same order without step (a). *)
Definition emoji_icon_order (bundle_id : option string) (name : string) : string :=
  first_some [match bundle_id with Some b => get_icon_by_bundle_id b | None => None end;
              get_icon_by_name name] DEFAULT_ICON.

(** Inputs for the image path. *)
Definition tiny_image : RgbImage := mkRgbImage 1 1 (fun _ _ => (0, 0, 0)%Z).
Definition finder : AppInfo := mkAppInfo "Finder" (Some "com.apple.finder").
Definition env_ok : ImageEnv := mkImageEnv None true (Some tiny_image) true true true finder.
Definition env_thumbnail_write_fails : ImageEnv :=
  mkImageEnv None true (Some tiny_image) true true false finder.
Definition env_image_write_fails : ImageEnv :=
  mkImageEnv None true (Some tiny_image) true false true finder.
Definition png_bytes : list N := [137; 80; 78; 71; 13; 10; 26; 10]%N.

(* ================================================================== *)
(** * Proofs *)

Example detect_t1 : detect_ascii "#FF5733AA" = Color. Proof. vm_compute. reflexivity. Qed.
Example detect_t2 : detect_ascii "#GGG" = Text. Proof. vm_compute. reflexivity. Qed.
Example detect_t3 : detect_ascii "https://example.com" = Url. Proof. vm_compute. reflexivity. Qed.
Example detect_t4 : detect_ascii "test.user@example.co.uk" = Email. Proof. vm_compute. reflexivity. Qed.
Example detect_t5 : detect_ascii "(555) 123-4567" = Phone. Proof. vm_compute. reflexivity. Qed.
Example detect_t6 : detect_ascii "+1 555 123 4567" = Phone. Proof. vm_compute. reflexivity. Qed.
Example detect_t7 : detect_ascii "+456.78" = Number. Proof. vm_compute. reflexivity. Qed.
Example detect_t8 : detect_ascii "def my_function():" = Code. Proof. vm_compute. reflexivity. Qed.
Example detect_t9 : detect_ascii "function test() { return 42; }" = Code. Proof. vm_compute. reflexivity. Qed.
Example detect_t10 : detect_ascii "Lorem ipsum dolor sit amet" = Text. Proof. vm_compute. reflexivity. Qed.
Example detect_t11 : detect_ascii "api.example.co" = Url. Proof. vm_compute. reflexivity. Qed.
Example detect_t12 : detect_ascii "123abc" = Text. Proof. vm_compute. reflexivity. Qed.

Example thumb_t1 : generate_thumbnail 1000 800 = (400, 320)%Z. Proof. vm_compute. reflexivity. Qed.
Example thumb_t2 : generate_thumbnail 200 150 = (200, 150)%Z. Proof. vm_compute. reflexivity. Qed.
Example thumb_t3 : generate_thumbnail 1000 999 = (399, 399)%Z. Proof. vm_compute. reflexivity. Qed.
Example thumb_t4 : generate_thumbnail 10000 1 = (1, 1)%Z. Proof. vm_compute. reflexivity. Qed.
Example f32_04 : fl32 (4 # 10) = (13421773 # 33554432)%Q. Proof. vm_compute. reflexivity. Qed.
Example dom_t1 : extract_dominant_color (mkRgbImage 100 100 (fun _ _ => (255, 0, 0)%Z)) = Some "#FF0000"%string.
Proof. vm_compute. reflexivity. Qed.

(* ------------------------------------------------------------------ *)
(** ** The regex matcher *)

Lemma ends_cat tot r1 r2 s x :
  In x (ends tot (RCat r1 r2) s) <-> exists y, In y (ends tot r1 s) /\ In x (ends tot r2 y).
Proof. simpl. rewrite in_flat_map. firstorder. Qed.

Lemma ends_alt tot r1 r2 s x :
  In x (ends tot (RAlt r1 r2) s) <-> In x (ends tot r1 s) \/ In x (ends tot r2 s).
Proof. simpl. apply in_app_iff. Qed.

Lemma ends_class tot p s x :
  In x (ends tot (RClass p) s) <-> exists c, s = c :: x /\ p c = true.
Proof.
  simpl. destruct s as [|c s']; simpl.
  - split; [intros []|intros (c & H & _); discriminate].
  - destruct (p c) eqn:Hp; simpl.
    + split; [intros [<-|[]]; eauto|intros (c' & [= -> ->] & _); auto].
    + split; [intros []|intros (c' & [= -> ->] & Hc); congruence].
Qed.

Lemma ends_empty tot s x : In x (ends tot REmpty s) <-> x = s.
Proof. simpl. split; [intros [<-|[]]; auto|intros ->; auto]. Qed.

Lemma ends_end tot s x : In x (ends tot REnd s) <-> s = [] /\ x = [].
Proof.
  destruct s; simpl.
  - split; [intros [<-|[]]; auto|intros [_ ->]; auto].
  - split; [intros []|intros [? _]; discriminate].
Qed.

Lemma ends_rep_class tot n p s x :
  In x (ends tot (RRep n (RClass p)) s) <->
  exists w, s = w ++ x /\ length w = n /\ forallb p w = true.
Proof.
  revert s. induction n as [|n IH]; intros s; cbn [RRep].
  - rewrite ends_empty. split.
    + intros ->. exists []. auto.
    + intros ([|c w] & -> & Hl & _); [reflexivity|discriminate].
  - rewrite ends_cat. split.
    + intros (y & Hy & Hx). apply ends_class in Hy as (c & -> & Hc).
      apply IH in Hx as (w & -> & Hl & Hw).
      exists (c :: w). simpl. rewrite Hc, Hw. auto.
    + intros ([|c w] & Hs & Hl & Hw); [discriminate|].
      simpl in Hs, Hl, Hw. apply andb_true_iff in Hw as [Hc Hw].
      exists (w ++ x). split.
      * apply ends_class. exists c. auto.
      * apply IH. exists w. auto.
Qed.

Lemma skipn_same_length {A} (i : nat) (t : list A) :
  length (skipn i t) = length t -> skipn i t = t.
Proof.
  revert t. induction i as [|i IH]; intros t H; [reflexivity|].
  destruct t as [|a t]; [reflexivity|]. simpl in *.
  pose proof (List.length_skipn i t). lia.
Qed.

(** A pattern that starts with [^] only matches at position 0. *)
Lemma is_match_start r t :
  is_match (RCat RStart r) t = true <-> exists x, In x (ends (length t) r t).
Proof.
  unfold is_match. rewrite existsb_exists. split.
  - intros (i & _ & Hne).
    destruct (ends (length t) (RCat RStart r) (skipn i t)) as [|x l] eqn:E; [discriminate|].
    assert (Hx : In x (ends (length t) (RCat RStart r) (skipn i t))) by (rewrite E; left; auto).
    apply ends_cat in Hx as (y & Hy & Hx). simpl in Hy.
    destruct (Nat.eqb_spec (length (skipn i t)) (length t)) as [Hl|]; [|destruct Hy].
    destruct Hy as [<-|[]]. rewrite skipn_same_length in Hx by exact Hl. eauto.
  - intros (x & Hx). exists 0. split; [apply in_seq; lia|].
    destruct (ends (length t) (RCat RStart r) (skipn 0 t)) eqn:E; [|reflexivity].
    assert (Hin : In x (ends (length t) (RCat RStart r) (skipn 0 t))).
    { apply ends_cat. exists t. split; [|exact Hx]. simpl. rewrite Nat.eqb_refl. left; auto. }
    rewrite E in Hin. destruct Hin.
Qed.

(* ------------------------------------------------------------------ *)
(** ** The classifier *)

Lemma hex_color_regex_iff t :
  is_match (HEX_COLOR_REGEX) t = true <-> hex_color_shape t.
Proof.
  unfold HEX_COLOR_REGEX. cbn [RSeq RAlts]. rewrite is_match_start. split.
  - intros (x & Hx).
    apply ends_cat in Hx as (y1 & Hy1 & Hx). apply ends_class in Hy1 as (c & -> & Hc).
    apply N.eqb_eq in Hc. simpl in Hc. subst c.
    apply ends_cat in Hx as (y2 & Hy2 & Hx).
    apply ends_cat in Hx as (y3 & Hy3 & _). apply ends_end in Hy3 as [-> _].
    exists y1. split; [reflexivity|].
    repeat rewrite ends_alt in Hy2.
    destruct Hy2 as [Hy2|[Hy2|Hy2]]; apply ends_rep_class in Hy2 as (w & Hs & Hl & Hw);
      rewrite app_nil_r in Hs; subst; auto.
  - intros (h & -> & Hh & Hl). exists [].
    apply ends_cat. exists h. split; [apply ends_class; exists 0x23%N; auto|].
    apply ends_cat. exists []. split.
    + assert (Hr : forall n, length h = n ->
                In [] (ends (length (0x23%N :: h)) (RRep n (RClass cls_hex)) h)).
      { intros n Hn. apply ends_rep_class. exists h. rewrite app_nil_r. auto. }
      repeat rewrite ends_alt. destruct Hl as [Hl|[Hl|Hl]]; auto.
    + apply ends_cat. exists []. split; [apply ends_end; auto|apply ends_empty; auto].
Qed.

Lemma detect_color_iff_match U s :
  detect_content_type U s = Color <->
  trim s <> [] /\ is_match (HEX_COLOR_REGEX) (trim s) = true.
Proof.
  unfold detect_content_type. destruct (trim s) as [|c t].
  - split; [discriminate|intros [H _]; congruence].
  - destruct (is_match (HEX_COLOR_REGEX) (c :: t)).
    + split; [intros _; split; [discriminate|reflexivity]|reflexivity].
    + split; [|intros [_ H]; discriminate].
      repeat match goal with |- context [if ?b then _ else _] => destruct b end;
        discriminate.
Qed.

(* ------------------------------------------------------------------ *)
(** ** Claims on the classifier and the text record *)

(** C1 (the claim fails): an e-mail address whose domain ends in one of
    the URL pattern's top-level domains is classified as [Url], not
    [Email]; the source's own test expects [Email] for both inputs. *)
Theorem detect_email_with_url_tld_is_url (U : unicode_tables) :
  detect_content_type U (lit "user@example.com") = Url /\
  detect_content_type U (lit "name+tag@domain.org") = Url.
Proof. split; vm_compute; reflexivity. Qed.

(** C4: [detect_content_type] returns [Color] exactly when the trimmed
    input is "#" followed by 3, 6 or 8 hex digits, whatever the later
    patterns would say; "#123" and "#FF5733" are colours, "#GGG" is not. *)
Theorem detect_color_iff_hex_shape (U : unicode_tables) :
  (forall s, detect_content_type U s = Color <-> hex_color_shape (trim s)) /\
  detect_content_type U (lit "#123") = Color /\
  detect_content_type U (lit "#FF5733") = Color /\
  detect_content_type U (lit "#GGG") <> Color.
Proof.
  split; [|split; [|split]].
  - intros s. rewrite detect_color_iff_match, hex_color_regex_iff. split.
    + intros [_ H]. exact H.
    + intros H. split; [|exact H]. destruct H as (h & Hh & _). rewrite Hh. discriminate.
  - apply detect_color_iff_match. split; [discriminate|vm_compute; reflexivity].
  - apply detect_color_iff_match. split; [discriminate|vm_compute; reflexivity].
  - rewrite detect_color_iff_match. intros [_ H]. vm_compute in H. discriminate.
Qed.

(** C10: the [contentType] and the [category] of an emitted text record
    come from the same mapping of the content type, so they are equal;
    a [Url] is emitted with "links". *)
Theorem text_record_content_type_is_category :
  (forall t, as_str t = map_content_type_to_category t) /\
  (forall U app content,
     rec_contentType (save_to_database U app content) =
     rec_category (save_to_database U app content)) /\
  (forall U app content,
     rec_contentType (save_to_database U app content) =
     as_str (detect_content_type U content)) /\
  as_str Url = "links"%string /\ map_content_type_to_category Url = "links"%string.
Proof.
  assert (Hmap : forall t, as_str t = map_content_type_to_category t) by (intros []; reflexivity).
  split; [exact Hmap|]. split; [|split; [|split; reflexivity]].
  - intros U app content. simpl. apply Hmap.
  - intros U app content. reflexivity.
Qed.

(* ------------------------------------------------------------------ *)
(** ** The text policy *)

Lemma wrap_i64_small z : (- 2 ^ 63 <= z < 2 ^ 63)%Z -> wrap_i64 z = z.
Proof.
  intros H. unfold wrap_i64. rewrite Z.mod_small; lia.
Qed.

Lemma is_prefix_length p s : is_prefix p s = true -> length p <= length s.
Proof.
  revert s. induction p as [|a p IH]; intros [|b s] H; simpl in *; try lia; try discriminate.
  apply andb_true_iff in H as [_ H]. apply IH in H. lia.
Qed.

Lemma contains_length hay needle :
  contains hay needle = true -> length needle <= length hay.
Proof.
  unfold contains. rewrite existsb_exists. intros (i & _ & H).
  apply is_prefix_length in H. pose proof (List.length_skipn i hay). lia.
Qed.

(** The length test alone, on one char. *)
Lemma should_ignore_short_char U c :
  str_len (trim [c]) < 2 -> should_ignore_content U [c] = true.
Proof. intros H. unfold should_ignore_content. apply Nat.ltb_lt in H. rewrite H. reflexivity. Qed.

Lemma should_save_when_ignored U m s t :
  should_ignore_content U s = true -> should_save U m s t = false.
Proof. intros H. unfold should_save. rewrite H. reflexivity. Qed.

(** C2: for a text that passes the ignore filter, [should_save] accepts a
    new value, and accepts a repeat of [last_content] exactly when more
    than 1000 ms have passed since [last_timestamp]; with "XY" accepted at
    [t0], a repeat at [t0 + 500] is rejected and one at [t0 + 1500] is
    accepted. *)
Theorem should_save_debounce U m s t
  (Hdeb : debounce_ms m = 1000%Z)
  (Ht : (0 <= t < 2 ^ 63)%Z) (Hl : (0 <= last_timestamp m < 2 ^ 63)%Z)
  (Hpass : should_ignore_content U s = false) :
  (s <> last_content m -> should_save U m s t = true) /\
  (s = last_content m -> (should_save U m s t = true <-> (t - last_timestamp m > 1000)%Z)) /\
  should_save U (mkMonitor true (lit "XY") [] 1700000000000 1000) (lit "XY") 1700000000500
    = false /\
  should_save U (mkMonitor true (lit "XY") [] 1700000000000 1000) (lit "XY") 1700000001500
    = true.
Proof.
  split; [|split; [|split]].
  - intros Hne. unfold should_save. rewrite Hpass.
    destruct (decide (s = last_content m)); [contradiction|reflexivity].
  - intros Heq. unfold should_save. rewrite Hpass.
    destruct (decide (s = last_content m)); [|contradiction].
    rewrite wrap_i64_small by lia. rewrite Hdeb, Z.gtb_lt. lia.
  - vm_compute. reflexivity.
  - vm_compute. reflexivity.
Qed.

Lemma should_save_debounce_witness :
  should_save ascii_tables (mkMonitor true (lit "XY") [] 1700000000000 1000) (lit "XY")
    1700000001500 = true.
Proof.
  destruct (should_save_debounce ascii_tables (mkMonitor true (lit "XY") [] 1700000000000 1000)
              (lit "XY") 1700000001500) as (_ & H & _); simpl; try lia.
  - vm_compute. reflexivity.
  - apply H; [reflexivity|]. simpl. lia.
Defined.

(** C2 as stated fails at its own example: "X" is one char, so the length
    filter rejects its repeat even 1500 ms later. *)
Lemma should_save_repeat_of_X_rejected :
  should_save ascii_tables (mkMonitor true (lit "X") [] 1700000000000 1000) (lit "X")
    1700000001500 = false.
Proof.
  apply should_save_when_ignored, should_ignore_short_char. vm_compute. lia.
Qed.

(** C3 (the claim fails): the length test counts UTF-8 bytes, so a text of
    one non-ASCII, non-blank char (such as "é") is not rejected, and a new
    such text is saved, though it is shorter than 2 characters. *)
Theorem should_ignore_keeps_single_non_ascii_char U (Hshort : tables_lower_short U)
  (c : rchar) (Hc : (0x80 <= c)%N) (Hws : is_whitespace c = false) :
  length (trim [c]) = 1 /\ should_ignore_content U [c] = false /\
  (forall m t, last_content m <> [c] -> should_save U m [c] t = true).
Proof.
  assert (Htrim : trim [c] = [c]) by (unfold trim, trim_end; simpl; rewrite Hws; simpl; rewrite Hws; reflexivity).
  assert (Hign : should_ignore_content U [c] = false).
  { unfold should_ignore_content. rewrite Htrim.
    assert (Hlen : Nat.ltb (str_len [c]) 2 = false).
    { apply Nat.ltb_ge. unfold str_len, len_utf8. simpl.
      destruct (c <? 0x80)%N eqn:E; [apply N.ltb_lt in E; lia|].
      destruct (c <? 0x800)%N; [lia|]. destruct (c <? 0x10000)%N; lia. }
    rewrite Hlen.
    assert (Hlow : length (to_lowercase U [c]) <= 3).
    { unfold to_lowercase. simpl. rewrite app_nil_r.
      destruct (c =? 0x3A3)%N; [simpl; lia|].
      unfold char_to_lower, is_ascii.
      destruct (c <? 0x80)%N eqn:E; [apply N.ltb_lt in E; lia|]. apply Hshort. }
    destruct (existsb _ ignore_patterns) eqn:E; [|reflexivity].
    apply existsb_exists in E as (p & Hin & Hp). apply contains_length in Hp.
    simpl in Hin. repeat destruct Hin as [<-|Hin]; simpl in Hp; try lia. }
  split; [rewrite Htrim; reflexivity|]. split; [exact Hign|].
  intros m t Hne. unfold should_save. rewrite Hign.
  case_decide; [congruence|reflexivity].
Qed.

Lemma should_ignore_keeps_single_non_ascii_char_witness :
  should_ignore_content ascii_tables [0xE9%N] = false.
Proof.
  apply (should_ignore_keeps_single_non_ascii_char ascii_tables); [|lia|reflexivity].
  intros c. simpl. lia.
Defined.

(* ------------------------------------------------------------------ *)
(** ** The image path *)

Lemma handle_clipboard_image_cases hash m env data m' effs :
  handle_clipboard_image hash m env data = (m', effs) ->
  (m' = m /\ count_emitted effs = 0) \/
  (fully_saved effs /\
   m' = mkMonitor (is_running m) (last_content m) (fmt_lower_hex (hash data))
                  (last_timestamp m) (debounce_ms m)).
Proof.
  unfold handle_clipboard_image. intros H.
  case_decide; [injection H as <- <-; auto|].
  destruct (_ <? _)%Z; [injection H as <- <-; auto|].
  destruct (env_app_data_dir_ok env); [|injection H as <- <-; auto]. simpl in H.
  unfold save_clipboard_image in H.
  destruct (env_decoded env) as [img|]; [|injection H as <- <-; auto].
  destruct (env_create_dir_ok env); [|injection H as <- <-; auto]. simpl in H.
  destruct (env_save_image_ok env); [|injection H as <- <-; auto]. simpl in H.
  destruct (generate_thumbnail _ _) as [tw th].
  destruct (env_save_thumbnail_ok env); simpl in H; injection H as <- <-.
  - right. split; [repeat split|reflexivity].
  - left. auto.
Qed.

(** A first attempt that writes the image file but not the thumbnail
    leaves the monitor as it was. *)
Lemma handle_thumbnail_fails hash m env data img :
  last_image_hash m <> fmt_lower_hex (hash data) ->
  (Z.of_nat (length data) <= max_size_bytes_of (env_settings_max_mb env))%Z ->
  env_app_data_dir_ok env = true -> env_decoded env = Some img ->
  env_create_dir_ok env = true -> env_save_image_ok env = true ->
  env_save_thumbnail_ok env = false ->
  handle_clipboard_image hash m env data = (m, [WroteImage]).
Proof.
  intros Hne Hsize Hdir Hdec Hcreate Himg Hthumb. unfold handle_clipboard_image.
  rewrite decide_False by exact Hne.
  destruct (Z.ltb_spec (max_size_bytes_of (env_settings_max_mb env)) (Z.of_nat (length data)));
    [lia|].
  rewrite Hdir. unfold save_clipboard_image. rewrite Hdec, Hcreate, Himg. cbn [negb].
  destruct (generate_thumbnail _ _). rewrite Hthumb. reflexivity.
Qed.

Lemma fully_saved_changes_monitor hash m env data m' effs :
  handle_clipboard_image hash m env data = (m', effs) -> m' = m -> count_emitted effs = 0.
Proof.
  intros H Hm. pose proof H as Hc.
  apply handle_clipboard_image_cases in Hc as [[_ He]|[Hs Hm']]; [exact He|].
  revert H. unfold handle_clipboard_image. case_decide as Hd.
  - intros H. injection H as <- <-. reflexivity.
  - intros _. exfalso. apply Hd. rewrite <- Hm, Hm'. reflexivity.
Qed.

(** C5: an image whose hash is [last_image_hash] is dropped with no file
    and no event; [last_image_hash] changes only with a full save (image
    and thumbnail written, record emitted), and otherwise the monitor is
    unchanged, so the same bytes are tried again; when the first of two
    successive submissions of the same bytes is saved, the pair writes
    one image and one thumbnail and emits one record; when the first
    attempt writes the image but fails on the thumbnail and the second
    writes the image again, the pair writes two image files; when neither attempt
    changes the monitor, nothing is emitted. *)
Theorem handle_image_dedup hash m env data :
  (last_image_hash m = fmt_lower_hex (hash data) ->
   handle_clipboard_image hash m env data = (m, [])) /\
  (forall m' effs, handle_clipboard_image hash m env data = (m', effs) ->
     (m' = m /\ count_emitted effs = 0) \/
     (fully_saved effs /\ last_image_hash m' = fmt_lower_hex (hash data) /\
      last_content m' = last_content m /\ last_timestamp m' = last_timestamp m)) /\
  (forall env2 m1 e1 m2 effs,
     handle_clipboard_image hash m env data = (m1, e1) -> fully_saved e1 ->
     handle_twice hash m env env2 data = (m2, effs) ->
     m2 = m1 /\ count_images effs = 1 /\ count_thumbnails effs = 1 /\ count_emitted effs = 1) /\
  (forall env2 img m2 effs,
     last_image_hash m <> fmt_lower_hex (hash data) ->
     (Z.of_nat (length data) <= max_size_bytes_of (env_settings_max_mb env))%Z ->
     env_app_data_dir_ok env = true -> env_decoded env = Some img ->
     env_create_dir_ok env = true -> env_save_image_ok env = true ->
     env_save_thumbnail_ok env = false ->
     count_images (snd (handle_clipboard_image hash m env2 data)) = 1 ->
     handle_twice hash m env env2 data = (m2, effs) ->
     count_images effs = 2 /\
     count_emitted effs = count_emitted (snd (handle_clipboard_image hash m env2 data))) /\
  (forall env2 m2 effs,
     fst (handle_clipboard_image hash m env data) = m ->
     fst (handle_clipboard_image hash m env2 data) = m ->
     handle_twice hash m env env2 data = (m2, effs) ->
     m2 = m /\ count_emitted effs = 0).
Proof.
  split; [|split; [|split; [|split]]].
  - intros H. unfold handle_clipboard_image. case_decide; [reflexivity|contradiction].
  - intros m' effs H. apply handle_clipboard_image_cases in H as [H|[Hs ->]]; [left; exact H|].
    right. auto.
  - intros env2 m1 e1 m2 effs H1 Hs Htw.
    unfold handle_twice in Htw. rewrite H1 in Htw.
    pose proof H1 as Hc. apply handle_clipboard_image_cases in Hc as [[_ Hz]|[_ ->]].
    + destruct Hs as [_ [_ He]]. congruence.
    + assert (Hsame : handle_clipboard_image hash
                (mkMonitor (is_running m) (last_content m) (fmt_lower_hex (hash data))
                           (last_timestamp m) (debounce_ms m)) env2 data =
              (mkMonitor (is_running m) (last_content m) (fmt_lower_hex (hash data))
                         (last_timestamp m) (debounce_ms m), [])).
      { unfold handle_clipboard_image at 1. case_decide; [reflexivity|]. simpl in *. contradiction. }
      rewrite Hsame in Htw. injection Htw as <- <-. rewrite app_nil_r.
      destruct Hs as [Hi [Ht He]]. auto.
  - intros env2 img m2 effs Hne Hsize Hdir Hdec Hcreate Himg Hthumb Hs2 Htw.
    unfold handle_twice in Htw.
    rewrite (handle_thumbnail_fails hash m env data img Hne Hsize Hdir Hdec Hcreate Himg Hthumb)
      in Htw.
    destruct (handle_clipboard_image hash m env2 data) as [m2' e2]. injection Htw as <- <-.
    cbn [snd] in Hs2 |- *. unfold count_images, count_emitted in *.
    simpl. rewrite Hs2. auto.
  - intros env2 m2 effs H1 H2 Htw. unfold handle_twice in Htw.
    destruct (handle_clipboard_image hash m env data) as [m1 e1] eqn:E1. simpl in H1. subst m1.
    destruct (handle_clipboard_image hash m env2 data) as [m2' e2] eqn:E2. simpl in H2. subst m2'.
    injection Htw as <- <-. split; [reflexivity|].
    unfold count_emitted. rewrite List.filter_app, length_app.
    pose proof (fully_saved_changes_monitor _ _ _ _ _ _ E1 eq_refl) as Z1.
    pose proof (fully_saved_changes_monitor _ _ _ _ _ _ E2 eq_refl) as Z2.
    unfold count_emitted in Z1, Z2. lia.
Qed.

Lemma handle_image_dedup_witness :
  handle_clipboard_image (fun _ => 7%Z) (mkMonitor true [] (fmt_lower_hex 7) 0 1000)
    env_ok png_bytes = (mkMonitor true [] (fmt_lower_hex 7) 0 1000, []).
Proof. apply (handle_image_dedup (fun _ => 7%Z)). reflexivity. Defined.

(** C5 as stated fails: if the thumbnail write fails the first time
    (after the image file was written), the same bytes submitted again
    are saved again, so the pair writes two image files; and if both
    attempts fail, nothing is emitted. *)
Lemma identical_image_twice_not_one_artifact :
  (let '(_, effs) := handle_twice (fun _ => 7%Z) new_monitor env_thumbnail_write_fails env_ok
                                  png_bytes in
   count_images effs = 2 /\ count_emitted effs = 1) /\
  (let '(_, effs) := handle_twice (fun _ => 7%Z) new_monitor env_image_write_fails
                                  env_image_write_fails png_bytes in
   count_images effs = 0 /\ count_emitted effs = 0).
Proof. vm_compute. auto. Qed.

Lemma generate_thumbnail_small w h :
  (w <= 400)%Z -> (h <= 400)%Z -> generate_thumbnail w h = (w, h).
Proof.
  intros Hw Hh. unfold generate_thumbnail, max_dimension.
  apply Z.leb_le in Hw, Hh. rewrite Hw, Hh. reflexivity.
Qed.

(** C6 (the claim fails): [generate_thumbnail] truncates the short side
    and then calls [resize], which keeps the aspect ratio of the request:
    1000 x 999 gives 399 x 399, and 10000 x 1 (short side truncated to 0)
    gives 1 x 1, whose longer side is not 400 and whose aspect ratio is
    not the original's. *)
Theorem generate_thumbnail_long_side_not_400 :
  generate_thumbnail 1000 999 = (399, 399)%Z /\ generate_thumbnail 10000 1 = (1, 1)%Z.
Proof. split; vm_compute; reflexivity. Qed.

(* ------------------------------------------------------------------ *)
(** ** The lifecycle *)

(** C7 as corrected: [start] while running does nothing, so from a state
    with no live loop two [start]s leave one; [stop] is idempotent;
    [is_running] reads the flag; but [stop] only clears the flag, and a
    [start] before the old loop has seen it spawns a second loop. *)
Theorem lifecycle_start_stop (rt : Runtime) :
  (is_running_cmd rt = true -> start rt = rt) /\
  start (start rt) = start rt /\
  is_running_cmd (start rt) = true /\
  stop (stop rt) = stop rt /\ is_running_cmd (stop rt) = false /\
  (rt_tasks rt = [] -> is_running_cmd rt = false -> active_cycles (start (start rt)) = 1) /\
  active_cycles (start (start (stop (start initial_runtime)))) = 2.
Proof.
  unfold start, stop, is_running_cmd, active_cycles.
  destruct rt as [[r lc lh lt d] tasks]; simpl.
  split; [intros ->; reflexivity|]. split; [destruct r; reflexivity|].
  split; [destruct r; reflexivity|]. split; [reflexivity|]. split; [reflexivity|].
  split; [|reflexivity]. intros -> ->. reflexivity.
Qed.

Lemma lifecycle_start_stop_witness :
  start (start initial_runtime) = start initial_runtime.
Proof. apply (lifecycle_start_stop initial_runtime). Defined.

(** C7 as stated fails: after start, stop, start, start the first loop
    has not yet read the cleared flag, so two loops are live, and the old
    one keeps running. *)
Lemma start_twice_after_stop_two_cycles :
  let rt := start (start (stop (start initial_runtime))) in
  active_cycles rt = 2 /\ is_running_cmd rt = true /\
  rt_tasks (task_step 0 rt) = [InIteration; AtLoopTop].
Proof. vm_compute. auto. Qed.

(* ------------------------------------------------------------------ *)
(** ** The app icon *)

Lemma get_app_icon_order bundle_id name :
  get_app_icon bundle_id name = emoji_icon_order bundle_id name.
Proof.
  unfold get_app_icon, emoji_icon_order.
  destruct bundle_id as [b|]; [destruct (get_icon_by_bundle_id b)|];
    destruct (get_icon_by_name name); reflexivity.
Qed.

(** C9 as corrected: the icon in an emitted record (text or image) is
    [get_app_icon]: bundle-id table, name table, generic glyph, with no
    native lookup; the native lookup with its per-bundle-id cache (misses
    cached too) is the first step of the separate command
    [get_app_icon_data], which then falls back to the same order. *)
Theorem app_icon_resolution :
  (forall U app content,
     rec_sourceAppIcon (save_to_database U app content) =
     emoji_icon_order (app_bundle_id app) (app_name app)) /\
  (forall hash m env data m' effs w h d icon,
     handle_clipboard_image hash m env data = (m', effs) -> In (EmittedImage w h d icon) effs ->
     icon = emoji_icon_order (app_bundle_id (env_frontmost_app env))
                             (app_name (env_frontmost_app env))) /\
  (forall fetch bundle_id name,
     fst (get_app_icon_data fetch ∅ bundle_id name) = spec_icon_order fetch bundle_id name) /\
  (forall fetch cache bid name r cache',
     get_app_icon_data fetch cache (Some bid) name = (r, cache') ->
     is_Some (cache' !! bid) /\
     forall fetch', get_app_icon_data fetch' cache' (Some bid) name = (r, cache')).
Proof.
  split; [|split; [|split]].
  - intros U app content. unfold save_to_database. cbn [rec_sourceAppIcon].
    apply get_app_icon_order.
  - intros hash m env data m' effs w h d icon H Hin.
    unfold handle_clipboard_image in H.
    case_decide; [injection H as _ <-; destruct Hin|].
    destruct (_ <? _)%Z; [injection H as _ <-; destruct Hin|].
    destruct (env_app_data_dir_ok env); [|injection H as _ <-; destruct Hin].
    cbv beta iota in H.
    destruct (save_clipboard_image env data) as [[[[w' h'] d']|] e] eqn:Hsave.
    + injection H as _ <-. apply in_app_iff in Hin as [Hin|[Hin|[]]].
      * unfold save_clipboard_image in Hsave.
        destruct (env_decoded env); [|discriminate].
        destruct (env_create_dir_ok env); [|discriminate].
        destruct (env_save_image_ok env); [|discriminate]. cbv beta iota in Hsave.
        destruct (generate_thumbnail _ _).
        destruct (env_save_thumbnail_ok env); cbv beta iota in Hsave; [|discriminate].
        injection Hsave as _ _ _ <-. destruct Hin as [|[|[]]]; discriminate.
      * injection Hin as _ _ _ <-. apply get_app_icon_order.
    + injection H as _ <-. unfold save_clipboard_image in Hsave.
      destruct (env_decoded env); [|injection Hsave as <-; destruct Hin].
      destruct (env_create_dir_ok env); [|injection Hsave as <-; destruct Hin].
      destruct (env_save_image_ok env); [|injection Hsave as <-; destruct Hin].
      cbv beta iota in Hsave.
      destruct (generate_thumbnail _ _).
      destruct (env_save_thumbnail_ok env); cbv beta iota in Hsave; [discriminate|].
      injection Hsave as <-. destruct Hin as [|[]]; discriminate.
  - intros fetch [bid|] name; unfold get_app_icon_data, get_system_icon, spec_icon_order.
    + rewrite lookup_empty. destruct (fetch bid); cbn [fst first_some]; [reflexivity|].
      apply get_app_icon_order.
    + cbn [fst]. apply get_app_icon_order.
  - intros fetch cache bid name r cache' H.
    assert (Hr : forall fetch', get_app_icon_data fetch' cache' (Some bid) name = (r, cache')).
    { intros fetch'. unfold get_app_icon_data, get_system_icon in *.
      destruct (cache !! bid) as [cached|] eqn:Hc.
      - destruct cached; injection H as <- <-; rewrite Hc; reflexivity.
      - destruct (fetch bid); injection H as <- <-; rewrite lookup_insert_eq; reflexivity. }
    split; [|exact Hr].
    unfold get_app_icon_data, get_system_icon in H.
    destruct (cache !! bid) as [cached|] eqn:Hc.
    + destruct cached; injection H as _ <-; rewrite Hc; eauto.
    + destruct (fetch bid); injection H as _ <-; rewrite lookup_insert_eq; eauto.
Qed.

Lemma app_icon_resolution_witness :
  is_Some (snd (get_app_icon_data (fun _ => None) ∅ (Some "com.apple.finder"%string) "Finder")
             !! "com.apple.finder"%string).
Proof.
  destruct (proj2 (proj2 (proj2 app_icon_resolution)) (fun _ => None) ∅ "com.apple.finder"%string
              "Finder"%string "📁"%string {["com.apple.finder"%string := None]})
    as [H _].
  - vm_compute. reflexivity.
  - exact H.
Defined.

(** C9 as stated fails: when the native lookup has an icon for Chrome,
    the emitted record still carries the emoji. *)
Lemma emitted_icon_skips_native_lookup :
  rec_sourceAppIcon (save_to_database ascii_tables
                       (mkAppInfo "Google Chrome" (Some "com.google.Chrome")) (lit "hello world"))
  <> spec_icon_order (fun _ => Some "data:image/png;base64,iVBORw0KGgo="%string)
                     (Some "com.google.Chrome"%string) "Google Chrome".
Proof. vm_compute. discriminate. Qed.

(* ------------------------------------------------------------------ *)
(** ** The dominant colour *)

Lemma filter_seq_skip_residues s a k d m :
  1 <= s -> k + d = s -> 1 <= d ->
  List.filter (fun i => Nat.eqb ((i - a) mod s) 0) (seq (a + d) m) =
  List.filter (fun i => Nat.eqb ((i - (a + s)) mod s) 0) (seq (a + s) (m - k)).
Proof.
  intros Hs. revert d m. induction k as [|k IH]; intros d m Hkd Hd.
  - simpl in Hkd. subst d. rewrite Nat.sub_0_r. apply filter_ext_in.
    intros i Hi. apply in_seq in Hi.
    replace (i - a) with ((i - (a + s)) + 1 * s) by lia.
    rewrite Nat.Div0.mod_add. reflexivity.
  - destruct m as [|m]; [reflexivity|].
    simpl seq. simpl List.filter.
    replace (a + d - a) with d by lia.
    rewrite Nat.mod_small by lia.
    destruct d as [|d']; [lia|]. simpl Nat.eqb. cbv beta iota.
    replace (S (a + S d')) with (a + S (S d')) by lia.
    rewrite (IH (S (S d')) m) by lia. reflexivity.
Qed.

Lemma step_by_from_seq s fuel a n :
  1 <= s -> n <= fuel ->
  step_by_from fuel (seq a n) s = List.filter (fun i => Nat.eqb ((i - a) mod s) 0) (seq a n).
Proof.
  intros Hs. revert a n. induction fuel as [|f IH]; intros a n Hn.
  - destruct n; [reflexivity|lia].
  - destruct n as [|n]; [reflexivity|].
    simpl seq. simpl step_by_from. simpl List.filter.
    rewrite Nat.sub_diag, Nat.Div0.mod_0_l. simpl Nat.eqb. cbv beta iota. f_equal.
    rewrite skipn_seq. rewrite IH by lia.
    replace (S a + (s - 1)) with (a + s) by lia.
    rewrite <- (filter_seq_skip_residues s a (s - 1) 1 n) by lia.
    replace (a + 1) with (S a) by lia. reflexivity.
Qed.

Lemma step_by_seq_10 n : step_by (seq 0 n) 10 = grid_coords n.
Proof.
  unfold step_by, grid_coords. rewrite length_seq, step_by_from_seq by lia.
  apply filter_ext. intros i. rewrite Nat.sub_0_r. reflexivity.
Qed.

Lemma sampled_pixels_grid img : sampled_pixels img 10 = grid_samples img.
Proof. unfold sampled_pixels, grid_samples. rewrite !step_by_seq_10. reflexivity. Qed.

Lemma fold_accumulate img pts r g b c :
  fold_left (accumulate_pixel img) pts (r, g, b, c) =
  (r + channel_total ch_r img pts, g + channel_total ch_g img pts,
   b + channel_total ch_b img pts, c + Z.of_nat (length pts))%Z.
Proof.
  revert r g b c. induction pts as [|[x y] pts IH]; intros r g b c.
  - cbn. rewrite !pair_equal_spec. lia.
  - cbn [fold_left]. unfold accumulate_pixel at 2.
    destruct (get_pixel img x y) as [[pr pg] pb] eqn:Hp.
    rewrite IH. unfold channel_total. cbn [fold_right fst snd length].
    rewrite Hp. unfold ch_r, ch_g, ch_b. cbn [fst snd].
    rewrite !pair_equal_spec. lia.
Qed.

Lemma grid_coords_in i n : In i (grid_coords n) -> i < n.
Proof. unfold grid_coords. rewrite filter_In, in_seq. lia. Qed.

Lemma grid_samples_in img x y :
  In (x, y) (grid_samples img) -> x < img_width img /\ y < img_height img.
Proof.
  unfold grid_samples. rewrite in_flat_map. intros [y' [Hy Hin]].
  apply in_map_iff in Hin as [x' [Heq Hx]]. injection Heq as <- <-.
  split; eapply grid_coords_in; eassumption.
Qed.

Lemma channel_total_bounds ch img pts :
  (forall x y, In (x, y) pts -> 0 <= ch (get_pixel img x y) <= 255)%Z ->
  (0 <= channel_total ch img pts <= 255 * Z.of_nat (length pts))%Z.
Proof.
  induction pts as [|[x y] pts IH]; intros H; simpl; [lia|].
  specialize (H x y (or_introl eq_refl)) as Hxy.
  assert (Hr : forall x y, In (x, y) pts -> (0 <= ch (get_pixel img x y) <= 255)%Z)
    by (intros; apply H; right; assumption).
  specialize (IH Hr). simpl in Hxy. lia.
Qed.

Lemma average_is_u8 total n :
  (0 < n)%Z -> (0 <= total <= 255 * n)%Z -> ((total / n) mod 256 = total / n)%Z.
Proof.
  intros Hn Ht. apply Z.mod_small. split.
  - apply Z.div_pos; lia.
  - apply Z.div_lt_upper_bound; lia.
Qed.

Lemma fmt_02X_hex_pair v : (0 <= v <= 255)%Z -> fmt_02X v = hex_pair v.
Proof.
  intros Hv.
  assert (Hall : forallb (fun k => String.eqb (fmt_02X (Z.of_nat k)) (hex_pair (Z.of_nat k)))
                         (seq 0 256) = true) by (vm_compute; reflexivity).
  rewrite forallb_forall in Hall.
  specialize (Hall (Z.to_nat v)). rewrite Z2Nat.id in Hall by lia.
  apply String.eqb_eq, Hall, in_seq. lia.
Qed.

Lemma grid_coords_nil n : grid_coords n = [] <-> n = 0.
Proof.
  split; [|intros ->; reflexivity].
  destruct n as [|n]; [reflexivity|]. unfold grid_coords. simpl. discriminate.
Qed.

Lemma grid_samples_nil img :
  grid_samples img = [] <-> img_width img = 0 \/ img_height img = 0.
Proof.
  unfold grid_samples. split.
  - destruct (grid_coords (img_height img)) as [|y ys] eqn:Hh.
    + intros _. right. apply grid_coords_nil. exact Hh.
    + simpl. destruct (grid_coords (img_width img)) as [|x xs] eqn:Hw.
      * intros _. left. apply grid_coords_nil. exact Hw.
      * discriminate.
  - intros [Hw|Hh].
    + rewrite (proj2 (grid_coords_nil _) Hw). induction (grid_coords (img_height img)); auto.
    + rewrite (proj2 (grid_coords_nil _) Hh). reflexivity.
Qed.

(** C8: [extract_dominant_color] samples the grid of every tenth column
    and row from (0,0), and returns the floor average of each channel
    over the samples as [#RRGGBB] (two upper-case hexadecimal digits per
    channel); it returns none exactly when no pixel is sampled, that is
    when the image has no pixel; a uniform 100 x 100 (255,0,0) image
    gives "#FF0000". *)
Theorem extract_dominant_color_grid_average img (Hpix : pixels_are_u8 img) :
  extract_dominant_color img = spec_dominant_color img /\
  (extract_dominant_color img = None <-> grid_samples img = []) /\
  (grid_samples img = [] <-> img_width img = 0 \/ img_height img = 0) /\
  extract_dominant_color (uniform_image 100 100 (255, 0, 0)%Z) = Some "#FF0000"%string.
Proof.
  assert (Heq : extract_dominant_color img = spec_dominant_color img).
  { unfold extract_dominant_color, spec_dominant_color.
    rewrite sampled_pixels_grid, fold_accumulate. cbv beta iota zeta. rewrite !Z.add_0_l.
    destruct (grid_samples img) as [|p ps] eqn:Hg; [reflexivity|].
    rewrite <- Hg.
    assert (Hn : (0 < Z.of_nat (length (grid_samples img)))%Z) by (rewrite Hg; simpl; lia).
    destruct (Z.eqb_spec (Z.of_nat (length (grid_samples img))) 0) as [E|_]; [lia|].
    assert (Hb : forall ch, (forall x y, x < img_width img -> y < img_height img ->
                              (0 <= ch (get_pixel img x y) <= 255)%Z) ->
                 (0 <= channel_total ch img (grid_samples img)
                    <= 255 * Z.of_nat (length (grid_samples img)))%Z).
    { intros ch Hch. apply channel_total_bounds. intros x y Hin.
      apply grid_samples_in in Hin as [Hx Hy]. apply Hch; assumption. }
    assert (Br := Hb ch_r (fun x y Hx Hy => proj1 (Hpix x y Hx Hy))).
    assert (Bg := Hb ch_g (fun x y Hx Hy => proj1 (proj2 (Hpix x y Hx Hy)))).
    assert (Bb := Hb ch_b (fun x y Hx Hy => proj2 (proj2 (Hpix x y Hx Hy)))).
    rewrite !average_is_u8 by assumption.
    rewrite !fmt_02X_hex_pair; [reflexivity| | |].
    all: split; [apply Z.div_pos; lia|].
    all: apply Z.lt_succ_r, Z.div_lt_upper_bound; lia. }
  split; [exact Heq|]. split; [|split; [apply grid_samples_nil|vm_compute; reflexivity]].
  rewrite Heq. unfold spec_dominant_color.
  destruct (grid_samples img); split; congruence.
Qed.

Lemma extract_dominant_color_grid_average_witness :
  extract_dominant_color (uniform_image 10 10 (12, 200, 255)%Z) =
  spec_dominant_color (uniform_image 10 10 (12, 200, 255)%Z).
Proof.
  apply (extract_dominant_color_grid_average (uniform_image 10 10 (12, 200, 255)%Z)).
  intros x y _ _. cbn. lia.
Defined.

(* ================================================================== *)
(** * Further properties of the code *)

(* ------------------------------------------------------------------ *)
(** ** Trimming and content detection *)

Lemma trim_start_ws_app ws s :
  forallb is_whitespace ws = true -> trim_start (ws ++ s) = trim_start s.
Proof.
  induction ws as [|c ws IH]; intros H; [reflexivity|].
  simpl in *. apply andb_true_iff in H as [Hc Hws]. rewrite Hc. auto.
Qed.

Lemma trim_start_all_ws ws : forallb is_whitespace ws = true -> trim_start ws = [].
Proof. intros H. rewrite <- (app_nil_r ws), trim_start_ws_app by exact H. reflexivity. Qed.

Lemma trim_start_app_ws s ws :
  forallb is_whitespace ws = true ->
  trim_start (s ++ ws) = match trim_start s with [] => [] | t => t ++ ws end.
Proof.
  intros Hws. induction s as [|c s IH]; simpl.
  - apply trim_start_all_ws, Hws.
  - destruct (is_whitespace c); [exact IH|reflexivity].
Qed.

Lemma trim_end_app_ws t ws :
  forallb is_whitespace ws = true -> trim_end (t ++ ws) = trim_end t.
Proof.
  intros Hws. unfold trim_end. rewrite rev_app_distr, trim_start_ws_app; [reflexivity|].
  rewrite forallb_forall in *. intros x Hx. apply Hws, in_rev, Hx.
Qed.

Lemma trim_pad ws1 s ws2 :
  forallb is_whitespace ws1 = true -> forallb is_whitespace ws2 = true ->
  trim (ws1 ++ s ++ ws2) = trim s.
Proof.
  intros H1 H2. unfold trim. rewrite trim_start_ws_app, trim_start_app_ws by assumption.
  destruct (trim_start s) as [|c t] eqn:Hs; [reflexivity|].
  apply trim_end_app_ws, H2.
Qed.

(** The classifier looks only at the trimmed text: padding a text with
    whitespace on either side does not change its content type, and a
    text made only of whitespace (or empty) is [Text]. *)
Theorem detect_ignores_surrounding_whitespace U ws1 s ws2
  (H1 : forallb is_whitespace ws1 = true) (H2 : forallb is_whitespace ws2 = true) :
  detect_content_type U (ws1 ++ s ++ ws2) = detect_content_type U s /\
  (forallb is_whitespace s = true -> detect_content_type U s = Text).
Proof.
  split.
  - unfold detect_content_type. rewrite trim_pad by assumption. reflexivity.
  - intros Hs. unfold detect_content_type, trim. rewrite trim_start_all_ws by exact Hs.
    reflexivity.
Qed.

Lemma detect_ignores_surrounding_whitespace_witness :
  detect_content_type ascii_tables ([0x20; 0x9]%N ++ lit "#FFF" ++ [0xA]%N) =
  detect_content_type ascii_tables (lit "#FFF").
Proof. apply (detect_ignores_surrounding_whitespace ascii_tables); reflexivity. Defined.

(* ------------------------------------------------------------------ *)
(** ** The denylist of [should_ignore_content] *)

Lemma to_lowercase_from_app U before a rest :
  exists t, to_lowercase_from U before (a ++ rest) =
            t ++ to_lowercase_from U (rev a ++ before) rest.
Proof.
  revert before. induction a as [|x a IH]; intros before.
  - exists []. reflexivity.
  - simpl. destruct (IH (x :: before)) as [t Ht]. rewrite Ht.
    rewrite <- app_assoc. simpl. eexists. rewrite app_assoc. reflexivity.
Qed.

Lemma to_lowercase_from_ascii U before b rest :
  forallb is_ascii b = true ->
  to_lowercase_from U before (b ++ rest) =
  map ascii_lower b ++ to_lowercase_from U (rev b ++ before) rest.
Proof.
  revert before. induction b as [|x b IH]; intros before Hb; [reflexivity|].
  simpl in Hb. apply andb_true_iff in Hb as [Hx Hb]. simpl.
  assert (Hs : (x =? 0x3A3)%N = false).
  { unfold is_ascii in Hx. apply N.ltb_lt in Hx. apply N.eqb_neq. lia. }
  rewrite Hs. unfold char_to_lower. rewrite Hx. simpl. f_equal.
  rewrite IH by exact Hb. rewrite <- app_assoc. reflexivity.
Qed.

Lemma is_prefix_app p y : is_prefix p (p ++ y) = true.
Proof. induction p as [|a p IH]; [reflexivity|]. simpl. rewrite N.eqb_refl. exact IH. Qed.

Lemma contains_middle x needle y : contains (x ++ needle ++ y) needle = true.
Proof.
  unfold contains. apply existsb_exists. exists (length x). split.
  - apply in_seq. rewrite !length_app. lia.
  - rewrite skipn_app, skipn_all, Nat.sub_diag. simpl. apply is_prefix_app.
Qed.

(** Every entry of the denylist is matched anywhere in the text and in any
    mix of ASCII upper and lower case: a text with, say, "[LOG]" or
    "Console." somewhere inside is ignored, whatever surrounds it. *)
Theorem should_ignore_denylist_any_case U a b c p
  (Hp : In p ignore_patterns) (Hb : forallb is_ascii b = true)
  (Hlow : map ascii_lower b = lit p) :
  should_ignore_content U (a ++ b ++ c) = true.
Proof.
  unfold should_ignore_content. destruct (Nat.ltb _ 2); [reflexivity|].
  apply existsb_exists. exists p. split; [exact Hp|].
  unfold to_lowercase. destruct (to_lowercase_from_app U [] a (b ++ c)) as [t Ht].
  rewrite Ht, to_lowercase_from_ascii by exact Hb. rewrite Hlow. apply contains_middle.
Qed.

Lemma should_ignore_denylist_any_case_witness :
  should_ignore_content ascii_tables (lit "see " ++ lit "[LOG]" ++ lit " at startup") = true.
Proof.
  apply (should_ignore_denylist_any_case ascii_tables (lit "see ") (lit "[LOG]")
           (lit " at startup") "[log]"%string).
  - simpl. auto.
  - reflexivity.
  - reflexivity.
Defined.

(* ------------------------------------------------------------------ *)
(** ** The iterations of [monitor_loop] *)

Lemma handle_keeps_text_state hash m env data :
  last_content (fst (handle_clipboard_image hash m env data)) = last_content m /\
  last_timestamp (fst (handle_clipboard_image hash m env data)) = last_timestamp m /\
  is_running (fst (handle_clipboard_image hash m env data)) = is_running m.
Proof.
  destruct (handle_clipboard_image hash m env data) as [m' effs] eqn:H.
  apply handle_clipboard_image_cases in H as [[-> _]|[_ ->]]; simpl; auto.
Qed.

Lemma text_records_app e1 e2 : text_records (e1 ++ e2) = text_records e1 ++ text_records e2.
Proof. unfold text_records. apply flat_map_app. Qed.

Lemma text_records_images effs : text_records (map PollImage effs) = [].
Proof. induction effs; simpl; auto. Qed.

(** When images are saved (the setting is on, or the settings cannot be
    loaded) and the clipboard holds an image, the iteration handles the
    image only: the text on the clipboard is not read, no text record is
    emitted, and [last_content] and [last_timestamp] are unchanged. *)
Theorem image_handled_before_text U hash m env data ienv
  (Himg : poll_image env = Some (data, ienv)) (Hset : poll_save_images env <> Some false) :
  monitor_iteration U hash m env =
    (fst (handle_clipboard_image hash m ienv data),
     map PollImage (snd (handle_clipboard_image hash m ienv data))) /\
  text_records (snd (monitor_iteration U hash m env)) = [] /\
  last_content (fst (monitor_iteration U hash m env)) = last_content m /\
  last_timestamp (fst (monitor_iteration U hash m env)) = last_timestamp m.
Proof.
  assert (Heq : monitor_iteration U hash m env =
    (fst (handle_clipboard_image hash m ienv data),
     map PollImage (snd (handle_clipboard_image hash m ienv data)))).
  { unfold monitor_iteration.
    destruct (poll_save_images env) as [[|]|]; [| congruence |]; rewrite Himg;
      destruct (handle_clipboard_image hash m ienv data); reflexivity. }
  rewrite Heq. simpl. split; [reflexivity|]. split; [apply text_records_images|].
  pose proof (handle_keeps_text_state hash m ienv data) as [Hc [Ht _]]. auto.
Qed.

Lemma image_handled_before_text_witness :
  monitor_iteration ascii_tables (fun _ => 7%Z) new_monitor
    (mkPollEnv None (Some (png_bytes, env_ok)) (Some (lit "hello")) 1000 finder) =
  (fst (handle_clipboard_image (fun _ => 7%Z) new_monitor env_ok png_bytes),
   map PollImage (snd (handle_clipboard_image (fun _ => 7%Z) new_monitor env_ok png_bytes))).
Proof.
  apply (image_handled_before_text ascii_tables (fun _ => 7%Z) new_monitor
           (mkPollEnv None (Some (png_bytes, env_ok)) (Some (lit "hello")) 1000 finder)
           png_bytes env_ok); simpl; [reflexivity|discriminate].
Defined.

(** With [save_images] off, the clipboard image is never looked at: the
    iteration is the one for a clipboard without image, and it writes no
    file, emits no image record and keeps [last_image_hash]. *)
Theorem save_images_off_skips_images U hash m env
  (Hset : poll_save_images env = Some false) :
  monitor_iteration U hash m env =
    monitor_iteration U hash m
      (mkPollEnv (poll_save_images env) None (poll_text env) (poll_time env) (poll_app env)) /\
  last_image_hash (fst (monitor_iteration U hash m env)) = last_image_hash m /\
  (forall e, ~ In (PollImage e) (snd (monitor_iteration U hash m env))).
Proof.
  assert (Heq : monitor_iteration U hash m env =
    monitor_iteration U hash m
      (mkPollEnv (poll_save_images env) None (poll_text env) (poll_time env) (poll_app env))).
  { unfold monitor_iteration. simpl. rewrite Hset. reflexivity. }
  split; [exact Heq|]. unfold monitor_iteration. rewrite Hset.
  destruct (read_clipboard (poll_text env)) as [[content|]|]; [|split; [reflexivity|intros e []]..].
  destruct (should_save U m content (poll_time env)); simpl; split; auto.
  - intros e [H|[]]. discriminate.
Qed.

Lemma save_images_off_skips_images_witness :
  last_image_hash (fst (monitor_iteration ascii_tables (fun _ => 7%Z) new_monitor
    (mkPollEnv (Some false) (Some (png_bytes, env_ok)) None 1000 finder))) = [].
Proof.
  apply (save_images_off_skips_images ascii_tables (fun _ => 7%Z) new_monitor
           (mkPollEnv (Some false) (Some (png_bytes, env_ok)) None 1000 finder)).
  reflexivity.
Defined.

Lemma should_save_not_ignored U m s t :
  should_save U m s t = true -> should_ignore_content U s = false.
Proof. unfold should_save. destruct (should_ignore_content U s); [discriminate|auto]. Qed.

Lemma monitor_iteration_keeps_text_ok U hash m env :
  kept_text_ok U (last_content m) ->
  kept_text_ok U (last_content (fst (monitor_iteration U hash m env))) /\
  Forall (fun r => should_ignore_content U (rec_content r) = false)
         (text_records (snd (monitor_iteration U hash m env))).
Proof.
  intros Hm. unfold monitor_iteration.
  destruct (match poll_save_images env with Some b => b | None => true end).
  - destruct (poll_image env) as [[data ienv]|].
    + pose proof (handle_keeps_text_state hash m ienv data) as [Hc _].
      destruct (handle_clipboard_image hash m ienv data) as [m' effs]. simpl in *.
      rewrite Hc, text_records_images. auto.
    + destruct (read_clipboard (poll_text env)) as [[content|]|]; simpl; auto.
      destruct (should_save U m content (poll_time env)) eqn:Hs; simpl; auto.
      apply should_save_not_ignored in Hs. split; [right; exact Hs|]. constructor; auto.
  - destruct (read_clipboard (poll_text env)) as [[content|]|]; simpl; auto.
    destruct (should_save U m content (poll_time env)) eqn:Hs; simpl; auto.
    apply should_save_not_ignored in Hs. split; [right; exact Hs|]. constructor; auto.
Qed.

(** From [ClipboardMonitor::new()], over any run of the loop, every text
    record emitted is a text that [should_ignore_content] lets through, and
    [last_content] is always empty or such a text: an ignored text never
    becomes the reference of the debounce. *)
Theorem loop_never_keeps_ignored_text U hash envs :
  kept_text_ok U (last_content (fst (run_iterations U hash new_monitor envs))) /\
  Forall (fun r => should_ignore_content U (rec_content r) = false)
         (text_records (snd (run_iterations U hash new_monitor envs))).
Proof.
  assert (Hgen : forall m, kept_text_ok U (last_content m) ->
    kept_text_ok U (last_content (fst (run_iterations U hash m envs))) /\
    Forall (fun r => should_ignore_content U (rec_content r) = false)
           (text_records (snd (run_iterations U hash m envs)))).
  { induction envs as [|env envs IH]; intros m Hm; simpl; [split; auto|].
    pose proof (monitor_iteration_keeps_text_ok U hash m env Hm) as [H1 F1].
    destruct (monitor_iteration U hash m env) as [m1 e1]. simpl in *.
    specialize (IH m1 H1) as [H2 F2].
    destruct (run_iterations U hash m1 envs) as [m2 e2]. simpl in *.
    rewrite text_records_app. split; [exact H2|]. apply Forall_app; auto. }
  apply Hgen. left. reflexivity.
Qed.

Lemma should_ignore_nil U : should_ignore_content U [] = true.
Proof. reflexivity. Qed.

Lemma steady_text_count U hash app content t0 n :
  forall st p m,
  p <= 2 -> p <= st -> last_content m = content ->
  last_timestamp m = (t0 + 500 * Z.of_nat (st - p))%Z -> debounce_ms m = 1000%Z ->
  should_ignore_content U content = false ->
  length (text_records (snd (run_iterations U hash m (steady_text_polls app content t0 st n))))
    = (p + n) / 3 /\
  Forall (fun r => rec_content r = content)
         (text_records (snd (run_iterations U hash m (steady_text_polls app content t0 st n)))).
Proof.
  induction n as [|n IH]; intros st p m Hp Hpst Hc Ht Hd Hok.
  - simpl. split; [|constructor]. destruct p as [|[|[|]]]; reflexivity || lia.
  - assert (Hne : content <> []) by (intros ->; rewrite should_ignore_nil in Hok; discriminate).
    unfold steady_text_polls. rewrite <- cons_seq. cbn [map run_iterations].
    fold (steady_text_polls app content t0 (S st) n).
    unfold monitor_iteration. cbn [poll_save_images poll_image poll_text poll_time poll_app].
    assert (Hrd : read_clipboard (Some content) = ReadOk (Some content))
      by (destruct content; [contradiction|reflexivity]).
    rewrite Hrd.
    assert (Hsave : should_save U m content (t0 + 500 * Z.of_nat (S st))%Z = Nat.eqb p 2).
    { unfold should_save. rewrite Hok. rewrite <- Hc.
      destruct (decide (last_content m = last_content m)) as [_|]; [|congruence].
      rewrite Ht, Hd, wrap_i64_small by lia. rewrite Z.gtb_ltb.
      destruct (Z.ltb_spec 1000 (t0 + 500 * Z.of_nat (S st) - (t0 + 500 * Z.of_nat (st - p))))
        as [L|L]; destruct p as [|[|[|]]]; simpl Nat.eqb; try reflexivity; lia. }
    rewrite Hsave. destruct (Nat.eqb_spec p 2) as [->|Hp2].
    + assert (E : (2 + S n) / 3 = S (n / 3)).
      { replace (2 + S n) with (n + 1 * 3) by lia. rewrite Nat.div_add by lia. lia. }
      rewrite E.
      destruct (IH (S st) 0
                  (mkMonitor (is_running m) content (last_image_hash m)
                             (t0 + 500 * Z.of_nat (S st))%Z (debounce_ms m)))
        as [IHl IHf]; [lia|lia|reflexivity|simpl; f_equal; f_equal; lia|exact Hd|exact Hok|].
      rewrite Nat.add_0_l in IHl.
      destruct (run_iterations U hash _ _) as [m2 e2]. simpl in *.
      split; [|constructor; [reflexivity|exact IHf]].
      rewrite IHl. reflexivity.
    + replace (p + S n) with (S p + n) by lia.
      destruct (IH (S st) (S p) m) as [IHl IHf];
        [lia|lia|exact Hc|rewrite Ht; f_equal; f_equal; lia|exact Hd|exact Hok|].
      destruct (run_iterations U hash m _) as [m2 e2]. simpl in *.
      split; [|exact IHf]. rewrite IHl. reflexivity.
Qed.

(** A text that stays on the clipboard is emitted again and again: with
    iterations 500 ms apart, the same text (passing the ignore filter),
    and no image, after an emission at [t0] the loop emits the text again
    at every third iteration (the first one more than 1000 ms later), so
    [n] iterations emit [n / 3] records, all of that text. *)
Theorem steady_text_reemitted U hash m app content t0 n
  (Hc : last_content m = content) (Ht : last_timestamp m = t0)
  (Hd : debounce_ms m = 1000%Z) (Hok : should_ignore_content U content = false) :
  length (text_records (snd (run_iterations U hash m (steady_text_polls app content t0 0 n))))
    = n / 3 /\
  Forall (fun r => rec_content r = content)
         (text_records (snd (run_iterations U hash m (steady_text_polls app content t0 0 n)))).
Proof.
  apply (steady_text_count U hash app content t0 n 0 0 m); auto.
  rewrite Ht. simpl. lia.
Qed.

Lemma steady_text_reemitted_witness :
  length (text_records (snd (run_iterations ascii_tables (fun _ => 0%Z)
            (mkMonitor true (lit "hello") [] 1700000000000 1000)
            (steady_text_polls finder (lit "hello") 1700000000000 0 7)))) = 2.
Proof.
  apply (steady_text_reemitted ascii_tables (fun _ => 0%Z)
           (mkMonitor true (lit "hello") [] 1700000000000 1000) finder (lit "hello")
           1700000000000 7); reflexivity.
Defined.

(* ------------------------------------------------------------------ *)
(** ** Image files, sizes and digests *)

Lemma hex_lower_digits_acc f n acc :
  hex_lower_digits f n acc = hex_lower_digits f n [] ++ acc.
Proof.
  revert n acc; induction f as [|f IH]; intros n acc; simpl; [reflexivity|].
  destruct (n / 16 =? 0)%Z; [reflexivity|].
  rewrite IH, (IH _ [_]), <- app_assoc. reflexivity.
Qed.

Lemma dec_digits_acc f n acc :
  dec_digits f n acc = dec_digits f n [] ++ acc.
Proof.
  revert n acc; induction f as [|f IH]; intros n acc; simpl; [reflexivity|].
  destruct (n / 10 =? 0)%Z; [reflexivity|].
  rewrite IH, (IH _ [_]), <- app_assoc. reflexivity.
Qed.

Lemma digits_value_snoc base l c :
  digits_value base (l ++ [c]) = (base * digits_value base l + digit_value c)%Z.
Proof. unfold digits_value. rewrite fold_left_app. reflexivity. Qed.

Lemma digit_value_hex d : (0 <= d < 16)%Z ->
  digit_value (Z.to_N (if (d <? 10)%Z then 48 + d else 87 + d)%Z) = d.
Proof.
  intros Hd. unfold digit_value.
  destruct (Z.ltb_spec d 10); rewrite Z2N.id by lia;
    [destruct (Z.ltb_spec (48 + d) 97) | destruct (Z.ltb_spec (87 + d) 97)]; lia.
Qed.

Lemma digit_value_dec d : (0 <= d < 10)%Z -> digit_value (Z.to_N (48 + d)%Z) = d.
Proof.
  intros Hd. unfold digit_value. rewrite Z2N.id by lia.
  destruct (Z.ltb_spec (48 + d) 97); lia.
Qed.

Lemma hex_lower_digits_value f n :
  (0 <= n < 16 ^ Z.of_nat f)%Z -> digits_value 16 (hex_lower_digits f n []) = n.
Proof.
  revert n; induction f as [|f IH]; intros n Hn.
  - change (Z.of_nat 0) with 0%Z in Hn. rewrite Z.pow_0_r in Hn. cbn. unfold digits_value. simpl. lia.
  - rewrite Nat2Z.inj_succ, Z.pow_succ_r in Hn by lia.
    cbn [hex_lower_digits].
    assert (Hm : (0 <= n mod 16 < 16)%Z) by (apply Z.mod_pos_bound; lia).
    destruct (Z.eqb_spec (n / 16) 0) as [E|E].
    + change [?x] with ([] ++ [x]). rewrite digits_value_snoc, digit_value_hex by lia.
      change (digits_value _ []) with 0%Z. pose proof (Z.div_mod n 16 ltac:(lia)); lia.
    + rewrite hex_lower_digits_acc, digits_value_snoc, digit_value_hex, IH by
        (try split; try apply Z.div_pos; try apply Z.div_lt_upper_bound; lia).
      pose proof (Z.div_mod n 16 ltac:(lia)); lia.
Qed.

Lemma dec_digits_value f n :
  (0 <= n < 10 ^ Z.of_nat f)%Z -> digits_value 10 (dec_digits f n []) = n.
Proof.
  revert n; induction f as [|f IH]; intros n Hn.
  - change (Z.of_nat 0) with 0%Z in Hn. rewrite Z.pow_0_r in Hn. cbn. unfold digits_value. simpl. lia.
  - rewrite Nat2Z.inj_succ, Z.pow_succ_r in Hn by lia.
    cbn [dec_digits].
    assert (Hm : (0 <= n mod 10 < 10)%Z) by (apply Z.mod_pos_bound; lia).
    destruct (Z.eqb_spec (n / 10) 0) as [E|E].
    + change [?x] with ([] ++ [x]). rewrite digits_value_snoc, digit_value_dec by lia.
      change (digits_value _ []) with 0%Z. pose proof (Z.div_mod n 10 ltac:(lia)). lia.
    + rewrite dec_digits_acc, digits_value_snoc, digit_value_dec, IH by
        (try split; try apply Z.div_pos; try apply Z.div_lt_upper_bound; lia).
      pose proof (Z.div_mod n 10 ltac:(lia)). lia.
Qed.

Lemma fmt_lower_hex_injective a b :
  (0 <= a < 2 ^ 64)%Z -> (0 <= b < 2 ^ 64)%Z -> fmt_lower_hex a = fmt_lower_hex b -> a = b.
Proof.
  intros Ha Hb E. unfold fmt_lower_hex in E.
  rewrite <- (hex_lower_digits_value 16 a), <- (hex_lower_digits_value 16 b), E;
    [reflexivity| change (16 ^ Z.of_nat 16)%Z with (2 ^ 64)%Z; lia ..].
Qed.

Lemma hex_lower_digits_not_nil f n acc : hex_lower_digits (S f) n acc <> [].
Proof.
  cbn [hex_lower_digits]. destruct (_ =? 0)%Z; [discriminate|].
  rewrite hex_lower_digits_acc. intros H. apply app_eq_nil in H as [_ H]. discriminate.
Qed.

Lemma fmt_lower_hex_not_nil n : fmt_lower_hex n <> [].
Proof. apply hex_lower_digits_not_nil. Qed.

Lemma fmt_dec_injective a b :
  (0 <= a < 10 ^ 40)%Z -> (0 <= b < 10 ^ 40)%Z -> fmt_dec a = fmt_dec b -> a = b.
Proof.
  intros Ha Hb E. unfold fmt_dec in E.
  rewrite <- (dec_digits_value 40 a), <- (dec_digits_value 40 b), E; [reflexivity|lia ..].
Qed.

Lemma dec_digits_are_digits f n acc c :
  In c (dec_digits f n acc) -> In c acc \/ (48 <= c <= 57)%N.
Proof.
  revert n acc; induction f as [|f IH]; intros n acc; simpl; [auto|].
  assert (Hm : (0 <= n mod 10 < 10)%Z) by (apply Z.mod_pos_bound; lia).
  destruct (_ =? 0)%Z.
  - intros [<-|H]; [right; lia|auto].
  - intros H. destruct (IH _ _ H) as [[<-|H']|H']; [right; lia|auto|auto].
Qed.

Lemma fmt_dec_digits n c : In c (fmt_dec n) -> (48 <= c <= 57)%N.
Proof. intros H. destruct (dec_digits_are_digits _ _ _ _ H) as [[]|]; auto. Qed.

(** An image whose hash differs from [last_image_hash], within the size
    limit, is decoded, written with its thumbnail and emitted, and its hash
    becomes [last_image_hash], when every file operation succeeds. *)
Theorem new_image_fully_saved hash m env data img
  (Hh : (0 <= hash data < 2 ^ 64)%Z)
  (Hlast : last_image_hash m = [] \/
           exists h, last_image_hash m = fmt_lower_hex h /\ (0 <= h < 2 ^ 64)%Z /\ h <> hash data)
  (Hsize : (Z.of_nat (length data) <= max_size_bytes_of (env_settings_max_mb env))%Z)
  (Hdir : env_app_data_dir_ok env = true) (Hdec : env_decoded env = Some img)
  (Hcreate : env_create_dir_ok env = true) (Himg : env_save_image_ok env = true)
  (Hthumb : env_save_thumbnail_ok env = true) :
  let w := Z.of_nat (img_width img) in
  let h := Z.of_nat (img_height img) in
  handle_clipboard_image hash m env data =
    (mkMonitor (is_running m) (last_content m) (fmt_lower_hex (hash data))
               (last_timestamp m) (debounce_ms m),
     [WroteImage; WroteThumbnail (fst (generate_thumbnail w h)) (snd (generate_thumbnail w h));
      EmittedImage w h (extract_dominant_color img)
        (get_app_icon (app_bundle_id (env_frontmost_app env)) (app_name (env_frontmost_app env)))]).
Proof.
  intros w h. unfold handle_clipboard_image.
  rewrite decide_False.
  2:{ intros E. destruct Hlast as [Hl|(h0 & Hl & Hr & Hne)]; rewrite Hl in E.
      - symmetry in E. exact (fmt_lower_hex_not_nil _ E).
      - exact (Hne (fmt_lower_hex_injective _ _ Hr Hh E)). }
  destruct (Z.ltb_spec (max_size_bytes_of (env_settings_max_mb env)) (Z.of_nat (length data)));
    [lia|].
  rewrite Hdir. unfold save_clipboard_image. rewrite Hdec, Hcreate, Himg. cbn [negb].
  fold w h. destruct (generate_thumbnail w h) as [tw th]. rewrite Hthumb. reflexivity.
Qed.

Lemma app_sep_inj (sep : rchar) l1 l2 r1 r2 :
  ~ In sep l1 -> ~ In sep l2 -> l1 ++ sep :: r1 = l2 ++ sep :: r2 -> l1 = l2 /\ r1 = r2.
Proof.
  revert l2; induction l1 as [|a l1 IH]; intros [|b l2] H1 H2 E; simpl in *.
  - injection E as E. auto.
  - injection E as -> _. tauto.
  - injection E as -> _. tauto.
  - injection E as -> E. destruct (IH l2) as [-> ->]; auto.
Qed.

Lemma fmt_dec_no_underscore n : ~ In 95%N (fmt_dec n).
Proof. intros H. apply fmt_dec_digits in H. lia. Qed.

Lemma fmt_dec_count_underscore n : count_occ N.eq_dec (fmt_dec n) 95%N = 0.
Proof. apply count_occ_not_In, fmt_dec_no_underscore. Qed.

(** The image and thumbnail file names determine their timestamp and
    suffix, and an image file name is never a thumbnail file name. *)
Theorem file_names_unique ts sfx ts' sfx'
  (Hts : (0 <= ts < 10 ^ 40)%Z) (Hsfx : (0 <= sfx < 10 ^ 40)%Z)
  (Hts' : (0 <= ts' < 10 ^ 40)%Z) (Hsfx' : (0 <= sfx' < 10 ^ 40)%Z) :
  (image_filename ts sfx = image_filename ts' sfx' <-> ts = ts' /\ sfx = sfx') /\
  (thumbnail_filename ts sfx = thumbnail_filename ts' sfx' <-> ts = ts' /\ sfx = sfx') /\
  image_filename ts sfx <> thumbnail_filename ts' sfx'.
Proof.
  unfold image_filename, thumbnail_filename. change (lit "_") with [95%N]. cbn [app].
  split; [|split].
  - split; [|intros [-> ->]; reflexivity].
    intros E. apply app_sep_inj in E as [E1 E2]; try apply fmt_dec_no_underscore.
    apply app_inv_tail in E2. split; apply fmt_dec_injective; assumption.
  - split; [|intros [-> ->]; reflexivity].
    intros E. apply app_sep_inj in E as [E1 E2]; try apply fmt_dec_no_underscore.
    apply app_inv_tail in E2. split; apply fmt_dec_injective; assumption.
  - intros E. apply (f_equal (fun l => count_occ N.eq_dec l 95%N)) in E.
    rewrite !count_occ_app, !(count_occ_cons_eq N.eq_dec _ (eq_refl 95%N)),
      !count_occ_app, !fmt_dec_count_underscore in E.
    vm_compute in E. discriminate.
Qed.

Lemma split_on_not_nil sep s : exists r rs, split_on sep s = r :: rs.
Proof.
  induction s as [|c s IH]; simpl; [eauto|].
  destruct IH as (r & rs & ->). destruct (c =? sep)%N; eauto.
Qed.

Lemma split_on_app sep a b :
  split_on sep (a ++ sep :: b) = split_on sep a ++ split_on sep b.
Proof.
  induction a as [|c a IH]; simpl.
  - rewrite N.eqb_refl. reflexivity.
  - rewrite IH. destruct (c =? sep)%N; [reflexivity|].
    destruct (split_on_not_nil sep a) as (r & rs & ->). reflexivity.
Qed.

Lemma split_on_no_sep sep s :
  forallb (fun c => negb (c =? sep)%N) s = true -> split_on sep s = [s].
Proof.
  induction s as [|c s IH]; simpl; [reflexivity|].
  intros H. apply andb_true_iff in H as [Hc Hs]. rewrite IH by exact Hs.
  destruct (c =? sep)%N; [discriminate|reflexivity].
Qed.

Lemma path_file_name_single pre name
  (Hpre : pre = [] \/ last pre = Some 0x2F%N)
  (Hne : name <> []) (Hdot : name <> lit ".") (Hdd : name <> lit "..")
  (Hsep : forallb (fun c => negb (c =? 0x2F)%N) name = true) :
  path_file_name (pre ++ name) = Some name.
Proof.
  assert (Hsplit : exists l, split_on 0x2F%N (pre ++ name) = l ++ [name]).
  { destruct Hpre as [->|Hl].
    - exists []. simpl. apply split_on_no_sep, Hsep.
    - apply last_Some in Hl as [pre' ->]. rewrite <- app_assoc.
      exists (split_on 0x2F%N pre'). simpl. rewrite split_on_app, (split_on_no_sep _ name Hsep).
      reflexivity. }
  destruct Hsplit as [l Hl]. unfold path_file_name. rewrite Hl, List.filter_app. simpl.
  rewrite (bool_decide_eq_false_2 _ Hne), (bool_decide_eq_false_2 _ Hdot). simpl.
  rewrite last_snoc, (bool_decide_eq_false_2 _ Hdd). reflexivity.
Qed.

Lemma path_join_shape dir name :
  has_root name = false ->
  exists pre, path_join dir name = pre ++ name /\ (pre = [] \/ last pre = Some 0x2F%N).
Proof.
  intros Hr. unfold path_join. rewrite Hr.
  destruct (last dir) as [c|] eqn:Hl.
  - destruct (N.eqb_spec c 0x2F).
    + subst. eauto.
    + exists (dir ++ [0x2F%N]). rewrite <- app_assoc. split; [reflexivity|].
      right. apply last_snoc.
  - exists []. auto.
Qed.

Lemma file_extension_png stem :
  stem <> [] -> file_extension (stem ++ lit ".png") = Some (lit "png").
Proof.
  intros Hs. unfold file_extension.
  rewrite bool_decide_eq_false_2.
  2:{ intros E. apply (f_equal (@length _)) in E. rewrite length_app in E.
      destruct stem; [contradiction|]. simpl in E. lia. }
  rewrite rev_app_distr. change (rev (lit ".png")) with [103; 110; 112; 46]%N.
  cbn [break_at_dot app N.eqb Pos.eqb].
  destruct (rev stem) eqn:E; [apply (f_equal (@rev _)) in E; rewrite rev_involutive in E;
                              contradiction|reflexivity].
Qed.

Lemma fmt_dec_no_slash n : forallb (fun c => negb (c =? 0x2F)%N) (fmt_dec n) = true.
Proof.
  apply forallb_forall. intros c Hc. apply fmt_dec_digits in Hc.
  destruct (N.eqb_spec c 0x2F); [lia|reflexivity].
Qed.

Lemma fmt_dec_has_root n : has_root (fmt_dec n ++ [95%N]) = false.
Proof.
  destruct (fmt_dec n) as [|c r] eqn:E; [reflexivity|]. simpl.
  destruct (N.eqb_spec c 0x2F); [|reflexivity].
  assert (Hc : In c (fmt_dec n)) by (rewrite E; left; reflexivity).
  apply fmt_dec_digits in Hc. lia.
Qed.

(** Serves the PNG files written by [save_clipboard_image]. *)
Lemma own_file_png dir stem suffix
  (Hstem : stem <> []) (Hroot : has_root stem = false)
  (Hsep : forallb (fun c => negb (c =? 0x2F)%N) (stem ++ suffix) = true)
  (Hsuf : exists s', suffix = s' ++ lit ".png") :
  path_extension (path_join dir (stem ++ suffix)) = Some (lit "png").
Proof.
  destruct Hsuf as [s' ->].
  assert (Hr : has_root (stem ++ s' ++ lit ".png") = false) by (destruct stem; [contradiction|exact Hroot]).
  destruct (path_join_shape dir _ Hr) as (pre & -> & Hpre).
  unfold path_extension. rewrite path_file_name_single; auto.
  - rewrite app_assoc. apply file_extension_png. destruct stem; [contradiction|discriminate].
  - destruct stem; [contradiction|discriminate].
  - intros E. apply (f_equal (@length _)) in E. rewrite !length_app in E. simpl in E.
    destruct stem; [contradiction|simpl in E; lia].
  - intros E. apply (f_equal (@length _)) in E. rewrite !length_app in E. simpl in E.
    destruct stem; [contradiction|simpl in E; lia].
Qed.

(** A file saved under the images directory of [save_clipboard_image]
    is served by [get_image_base64] as a PNG data URL of its bytes. *)
Theorem saved_images_served_as_png app_data_dir ts sfx encode data :
  let images_dir := path_join (path_join app_data_dir (lit "CopyGum")) (lit "images") in
  get_image_base64 true (inr data) encode (path_join images_dir (image_filename ts sfx))
    = inr (lit "data:image/png;base64," ++ encode data) /\
  get_image_base64 true (inr data) encode (path_join images_dir (thumbnail_filename ts sfx))
    = inr (lit "data:image/png;base64," ++ encode data).
Proof.
  intros images_dir. unfold get_image_base64. cbn [negb].
  assert (Hstem : fmt_dec ts ++ [95%N] <> []) by (destruct (fmt_dec ts); discriminate).
  assert (Hsep : forall l, forallb (fun c => negb (c =? 0x2F)%N) l = true ->
            forallb (fun c => negb (c =? 0x2F)%N) ((fmt_dec ts ++ [95%N]) ++ fmt_dec sfx ++ l) = true).
  { intros l Hl. rewrite !forallb_app, !fmt_dec_no_slash. exact Hl. }
  replace (image_filename ts sfx) with ((fmt_dec ts ++ [95%N]) ++ (fmt_dec sfx ++ lit ".png"))
    by (unfold image_filename; rewrite <- app_assoc; reflexivity).
  replace (thumbnail_filename ts sfx)
    with ((fmt_dec ts ++ [95%N]) ++ ((fmt_dec sfx ++ lit "_thumb") ++ lit ".png"))
    by (unfold thumbnail_filename; rewrite <- !app_assoc; reflexivity).
  rewrite !own_file_png; auto using fmt_dec_has_root.
  all: first [ split; reflexivity | eexists; reflexivity
             | rewrite <- (app_assoc (fmt_dec sfx)); apply Hsep; reflexivity
             | apply Hsep; reflexivity ].
Qed.

Lemma max_size_bytes_i32 mb : (- 2 ^ 31 <= mb < 2 ^ 31)%Z ->
  max_size_bytes_of (Some mb) =
    (if (0 <=? mb)%Z then mb * 1048576 else 2 ^ 64 + mb * 1048576)%Z.
Proof.
  intros Hmb. unfold max_size_bytes_of.
  destruct (Z.leb_spec 0 mb).
  - rewrite (Z.mod_small mb), (Z.mod_small (mb * 1024)), Z.mod_small; lia.
  - rewrite <- (Z.mod_unique mb (2 ^ 64) (-1) (2 ^ 64 + mb)) by lia.
    rewrite <- (Z.mod_unique ((2 ^ 64 + mb) * 1024) (2 ^ 64) 1023 (2 ^ 64 + mb * 1024)) by lia.
    rewrite <- (Z.mod_unique ((2 ^ 64 + mb * 1024) * 1024) (2 ^ 64) 1023 (2 ^ 64 + mb * 1048576))
      by lia.
    reflexivity.
Qed.

(** The image size limit is [max_image_size_mb] MiB computed as a
    [usize] (a negative setting wraps around), 10 MiB without settings;
    a larger image is dropped without effect. *)
Theorem image_size_limit hash m env data
  (Hmb : match env_settings_max_mb env with
         | Some mb => (- 2 ^ 31 <= mb < 2 ^ 31)%Z
         | None => True
         end) :
  let limit := match env_settings_max_mb env with
               | Some mb => if (0 <=? mb)%Z then (mb * 1048576)%Z else (2 ^ 64 + mb * 1048576)%Z
               | None => 10485760%Z
               end in
  max_size_bytes_of (env_settings_max_mb env) = limit /\
  ((limit < Z.of_nat (length data))%Z -> handle_clipboard_image hash m env data = (m, [])).
Proof.
  intros limit.
  assert (Hl : max_size_bytes_of (env_settings_max_mb env) = limit).
  { unfold limit. destruct (env_settings_max_mb env) as [mb|];
      [apply max_size_bytes_i32, Hmb|reflexivity]. }
  split; [exact Hl|]. intros Hbig. unfold handle_clipboard_image.
  case_decide; [reflexivity|]. rewrite Hl.
  destruct (Z.ltb_spec limit (Z.of_nat (length data))); [reflexivity|lia].
Qed.

Lemma image_size_limit_witness :
  (- 2 ^ 31 <= 0 < 2 ^ 31)%Z /\
  handle_clipboard_image (fun _ => 0%Z) new_monitor
    (mkImageEnv (Some 0%Z) true (Some tiny_image) true true true finder) png_bytes
  = (new_monitor, []).
Proof.
  split; [lia|].
  apply (image_size_limit (fun _ => 0%Z) new_monitor
           (mkImageEnv (Some 0%Z) true (Some tiny_image) true true true finder) png_bytes);
    [cbn; lia | vm_compute; reflexivity].
Defined.

Lemma get_app_icon_data_keeps fetch cache bundle_id app_name k v :
  cache !! k = Some v -> (snd (get_app_icon_data fetch cache bundle_id app_name)) !! k = Some v.
Proof.
  intros Hk. unfold get_app_icon_data, get_system_icon.
  destruct bundle_id as [bid|]; [|exact Hk].
  destruct (cache !! bid) as [cached|] eqn:Hc.
  - destruct cached; exact Hk.
  - assert (Hi : (<[bid:=fetch bid]> cache : IconCache) !! k = Some v).
    { destruct (decide (bid = k)) as [->|Hne]; [congruence|].
      rewrite lookup_insert_ne by exact Hne. exact Hk. }
    destruct (fetch bid); exact Hi.
Qed.

Lemma icon_requests_keeps calls cache k v :
  cache !! k = Some v -> (snd (icon_requests cache calls)) !! k = Some v.
Proof.
  revert cache; induction calls as [|[[fetch bid] name] calls IH]; intros cache Hk; [exact Hk|].
  cbn [icon_requests].
  pose proof (get_app_icon_data_keeps fetch cache bid name k v Hk) as H1.
  destruct (get_app_icon_data fetch cache bid name) as [r c1].
  specialize (IH c1 H1). destruct (icon_requests c1 calls) as [rs c2]. exact IH.
Qed.

(** The first icon request for a bundle id caches the fetched icon or
    its absence; every later request returns that result and leaves the
    cache as it is. *)
Theorem icon_lookup_final fetch cache b name calls fetch' name' :
  let cached := match cache !! b with Some v => v | None => fetch b end in
  let '(r1, cache1) := get_app_icon_data fetch cache (Some b) name in
  let '(_, cache2) := icon_requests cache1 calls in
  r1 = match cached with Some icon => icon | None => get_app_icon (Some b) name end /\
  get_app_icon_data fetch' cache2 (Some b) name' =
    (match cached with Some icon => icon | None => get_app_icon (Some b) name' end, cache2).
Proof.
  intros cached.
  assert (H1 : (snd (get_app_icon_data fetch cache (Some b) name)) !! b = Some cached /\
               fst (get_app_icon_data fetch cache (Some b) name) =
                 match cached with Some icon => icon | None => get_app_icon (Some b) name end).
  { unfold cached, get_app_icon_data, get_system_icon.
    destruct (cache !! b) as [v|] eqn:Hc.
    - destruct v; auto.
    - destruct (fetch b); cbn [fst snd]; rewrite lookup_insert_eq; auto. }
  destruct (get_app_icon_data fetch cache (Some b) name) as [r1 c1]. cbn [fst snd] in H1.
  destruct H1 as [H1 ->].
  pose proof (icon_requests_keeps calls c1 b cached H1) as H2.
  destruct (icon_requests c1 calls) as [rs c2]. cbn [snd] in H2.
  split; [reflexivity|].
  unfold get_app_icon_data, get_system_icon. rewrite H2. destruct cached; reflexivity.
Qed.

Lemma str_len_ascii s : forallb is_ascii s = true -> str_len s = length s.
Proof.
  induction s as [|c s IH]; simpl; [reflexivity|].
  intros H. apply andb_true_iff in H as [Hc Hs]. unfold is_ascii in Hc.
  unfold len_utf8. rewrite Hc. fold (str_len s). rewrite IH by exact Hs. reflexivity.
Qed.

Lemma str_prefix_bytes_ascii s n :
  forallb is_ascii s = true -> n <= length s -> str_prefix_bytes s n = Some (firstn n s).
Proof.
  revert n; induction s as [|c s IH]; intros n Ha Hn; simpl in *.
  - assert (n = 0) as -> by lia. reflexivity.
  - apply andb_true_iff in Ha as [Hc Hs].
    destruct n as [|n]; [reflexivity|]. cbn [Nat.eqb].
    unfold len_utf8. unfold is_ascii in Hc. rewrite Hc. cbn [Nat.leb].
    rewrite Nat.sub_succ, Nat.sub_0_r, IH by (auto; lia). reflexivity.
Qed.

Lemma str_prefix_bytes_inside a c b k :
  0 < k < len_utf8 c -> str_prefix_bytes (a ++ c :: b) (str_len a + k) = None.
Proof.
  intros Hk. induction a as [|x a IH]; simpl.
  - destruct (Nat.eqb_spec k 0); [lia|]. destruct (Nat.leb_spec (len_utf8 c) k); [lia|].
    reflexivity.
  - fold (str_len a).
    destruct (Nat.eqb_spec (len_utf8 x + str_len a + k) 0); [lia|].
    replace (len_utf8 x <=? len_utf8 x + str_len a + k) with true
      by (symmetry; apply Nat.leb_le; lia).
    replace (len_utf8 x + str_len a + k - len_utf8 x) with (str_len a + k) by lia.
    rewrite IH. reflexivity.
Qed.

Lemma str_len_app a b : str_len (a ++ b) = str_len a + str_len b.
Proof. unfold str_len. rewrite fold_right_app. induction a; simpl; lia. Qed.

(** [truncate_for_display] cuts ASCII text to [max_len] bytes and adds
    "..."; a cut inside a multi-byte char panics. *)
Theorem truncate_for_display_cut text max_len :
  (forallb is_ascii text = true ->
   truncate_for_display text max_len =
     Some (if length text <=? max_len then text else firstn max_len text ++ lit "...")) /\
  (forall a c b k, text = a ++ c :: b -> 0 < k < len_utf8 c -> max_len = str_len a + k ->
   truncate_for_display text max_len = None).
Proof.
  split.
  - intros Ha. unfold truncate_for_display. rewrite str_len_ascii by exact Ha.
    destruct (Nat.leb_spec (length text) max_len); [reflexivity|].
    rewrite str_prefix_bytes_ascii by (auto; lia). reflexivity.
  - intros a c b k -> Hk ->. unfold truncate_for_display.
    rewrite str_len_app. cbn [str_len fold_right]. fold (str_len b).
    destruct (Nat.leb_spec (str_len a + (len_utf8 c + str_len b)) (str_len a + k)); [lia|].
    rewrite str_prefix_bytes_inside by exact Hk. reflexivity.
Qed.

Lemma truncate_for_display_cut_witness :
  truncate_for_display (lit "hello world") 5 = Some (lit "hello...") /\
  truncate_for_display [104; 233; 108; 108; 111]%N 2 = None.
Proof.
  destruct (truncate_for_display_cut (lit "hello world") 5) as [H1 _].
  destruct (truncate_for_display_cut [104; 233; 108; 108; 111]%N 2) as [_ H2].
  split.
  - rewrite H1 by reflexivity. reflexivity.
  - apply (H2 [104%N] 233%N [108; 108; 111]%N 1); [reflexivity|vm_compute; lia|reflexivity].
Defined.

Lemma new_image_fully_saved_witness :
  handle_clipboard_image (fun _ => 7%Z) new_monitor env_ok png_bytes =
    (mkMonitor false [] (fmt_lower_hex 7) 0 1000,
     [WroteImage;
      WroteThumbnail (fst (generate_thumbnail (Z.of_nat (img_width tiny_image))
                                              (Z.of_nat (img_height tiny_image))))
                     (snd (generate_thumbnail (Z.of_nat (img_width tiny_image))
                                              (Z.of_nat (img_height tiny_image))));
      EmittedImage (Z.of_nat (img_width tiny_image)) (Z.of_nat (img_height tiny_image))
        (extract_dominant_color tiny_image) (get_app_icon (Some "com.apple.finder") "Finder")]).
Proof.
  apply (new_image_fully_saved (fun _ => 7%Z) new_monitor env_ok png_bytes tiny_image);
    first [lia | left; reflexivity | apply Z.leb_le; reflexivity | reflexivity].
Defined.

Lemma file_names_unique_witness :
  ((image_filename 1700000000000 42 = image_filename 1700000000000 43 <->
    1700000000000 = 1700000000000 /\ 42 = 43) /\
   (thumbnail_filename 1700000000000 42 = thumbnail_filename 1700000000000 43 <->
    1700000000000 = 1700000000000 /\ 42 = 43) /\
   image_filename 1700000000000 42 <> thumbnail_filename 1700000000000 43)%Z.
Proof. apply (file_names_unique 1700000000000 42 1700000000000 43); lia. Defined.

(* ------------------------------------------------------------------ *)
(** ** Thumbnail sizes under [f32]/[f64] rounding *)

Lemma round_half_even_bound a b : (0 < b)%Z ->
  (2 * a - b <= 2 * b * round_half_even a b <= 2 * a + b)%Z.
Proof.
  intros Hb. unfold round_half_even.
  pose proof (Z.div_mod a b ltac:(lia)) as Hd. pose proof (Z.mod_pos_bound a b Hb) as Hm.
  destruct (Z.ltb_spec (2 * (a mod b)) b); [nia|].
  destruct (Z.ltb_spec b (2 * (a mod b))); [nia|].
  destruct (Z.even (a / b)); nia.
Qed.

Lemma inject_Z_pow2 k : (0 <= k)%Z -> inject_Z (2 ^ k) == Qpower 2 k.
Proof. intros Hk. apply Zpower_Qpower, Hk. Qed.

Lemma Qpower2_pos k : (0 < Qpower 2 k)%Q.
Proof. apply Qpower_0_lt. lra. Qed.

Lemma inject_Z_pos_neq d : (0 < d)%Z -> ~ (inject_Z d == 0)%Q.
Proof. intros Hd E. unfold Qeq in E. simpl in E. lia. Qed.

Lemma mul_pow2_value n d k : (0 < d)%Z ->
  let '(a, b) := mul_pow2 n d k in
  (0 < b)%Z /\ (inject_Z a / inject_Z b == inject_Z n / inject_Z d * Qpower 2 k)%Q.
Proof.
  intros Hd. unfold mul_pow2.
  destruct (Z.leb_spec 0 k).
  - split; [exact Hd|]. rewrite inject_Z_mult, inject_Z_pow2 by exact H.
    field. apply inject_Z_pos_neq, Hd.
  - split; [apply Z.mul_pos_pos; [exact Hd|apply Z.pow_pos_nonneg; lia]|].
    rewrite inject_Z_mult, inject_Z_pow2 by lia.
    rewrite Qpower_opp.
    field. repeat split; first [apply inject_Z_pos_neq; lia | apply Qnot_eq_sym, Qlt_not_eq, Qpower2_pos].
Qed.

Section FloatBounds.
Local Open Scope Q_scope.

Lemma inject_Z_pos z : (0 < z)%Z -> 0 < inject_Z z.
Proof. intros H. unfold Qlt. simpl. lia. Qed.

Lemma inject_Z_nonneg z : (0 <= z)%Z -> 0 <= inject_Z z.
Proof. intros H. unfold Qle. simpl. lia. Qed.

Lemma rel_err_step (m y t x p : Q) :
  0 < t -> m - y <= 1 # 2 -> y - m <= 1 # 2 -> p * (1 # 2) <= y -> x == y * t -> 0 <= p ->
  p * (m * t - x) <= x /\ p * (x - m * t) <= x.
Proof.
  intros Ht H1 H2 H3 Hx Hp. rewrite Hx.
  assert (A : p * (m - y) <= y) by nra.
  assert (B : p * (y - m) <= y) by nra.
  split; nra.
Qed.

Lemma q_div_le (p q n d : Q) : 0 < q -> 0 < d -> 0 <= p -> p <= n -> d <= q -> p / q <= n / d.
Proof.
  intros Hq Hd Hp Hpn Hdq.
  assert (Ey : p / q * q == p) by (field; lra).
  assert (Ex : n / d * d == n) by (field; lra).
  assert (0 <= n / d).
  { apply Qle_shift_div_l; lra. }
  nra.
Qed.

Lemma exponent_lower n d : (0 < n)%Z -> (0 < d)%Z ->
  let l := (Z.log2 n - Z.log2 d)%Z in
  let e := let '(a, b) := mul_pow2 n d (- l) in if (b <=? a)%Z then l else (l - 1)%Z in
  Qpower 2 e <= inject_Z n / inject_Z d.
Proof.
  intros Hn Hd l e. subst e.
  pose proof (mul_pow2_value n d (- l) Hd) as Hv.
  destruct (mul_pow2 n d (- l)) as [a b]. destruct Hv as [Hb Hv].
  destruct (Z.leb_spec b a).
  - assert (H1 : 1 <= inject_Z a / inject_Z b).
    { apply Qle_shift_div_l; [apply inject_Z_pos; exact Hb|].
      rewrite Qmult_1_l, <- Zle_Qle. exact H. }
    rewrite Hv in H1.
    assert (E : Qpower 2 (- l) * Qpower 2 l == 1).
    { rewrite <- Qpower_plus by lra. replace (- l + l)%Z with 0%Z by lia. reflexivity. }
    pose proof (Qpower2_pos l). pose proof (Qpower2_pos (- l)).
    assert (0 <= inject_Z n / inject_Z d).
    { apply Qle_shift_div_l; [apply inject_Z_pos; exact Hd|]. rewrite Qmult_0_l. apply inject_Z_nonneg. lia. }
    nra.
  - pose proof (Z.log2_spec n Hn) as [Hn1 _]. pose proof (Z.log2_spec d Hd) as [_ Hd1].
    pose proof (Z.log2_nonneg n). pose proof (Z.log2_nonneg d).
    assert (E : Qpower 2 (l - 1) == inject_Z (2 ^ Z.log2 n) / inject_Z (2 ^ Z.succ (Z.log2 d))).
    { rewrite !inject_Z_pow2 by lia. unfold l.
      replace (Z.log2 n - Z.log2 d - 1)%Z with (Z.log2 n + - Z.succ (Z.log2 d))%Z by lia.
      rewrite Qpower_plus, Qpower_opp by lra. field.
      apply Qnot_eq_sym, Qlt_not_eq, Qpower2_pos. }
    rewrite E. apply q_div_le.
    + apply inject_Z_pos. apply Z.pow_pos_nonneg; lia.
    + apply inject_Z_pos. exact Hd.
    + apply inject_Z_nonneg. apply Z.pow_nonneg. lia.
    + rewrite <- Zle_Qle. exact Hn1.
    + rewrite <- Zle_Qle. lia.
Qed.

Lemma round_float_bounds prec x : (1 <= prec)%Z -> 0 <= x ->
  inject_Z (2 ^ prec) * (round_float prec x - x) <= x /\
  inject_Z (2 ^ prec) * (x - round_float prec x) <= x.
Proof.
  intros Hprec Hx. destruct x as [n dp].
  assert (HP : 0 <= inject_Z (2 ^ prec)) by (apply inject_Z_nonneg, Z.pow_nonneg; lia).
  unfold round_float. cbn [Qnum Qden].
  destruct (Z.leb_spec n 0) as [Hn|Hn].
  - assert (Hz : n # dp == 0).
    { unfold Qle in Hx. simpl in Hx. unfold Qeq. simpl. lia. }
    rewrite Hz. split; lra.
  - assert (Hxv : n # dp == inject_Z n / inject_Z (Zpos dp)) by apply Qmake_Qdiv.
    pose proof (exponent_lower n (Zpos dp) Hn ltac:(lia)) as He. cbv zeta in He.
    set (e := let '(a, b) := mul_pow2 n (Zpos dp) (- (Z.log2 n - Z.log2 (Zpos dp))) in
              if (b <=? a)%Z then (Z.log2 n - Z.log2 (Zpos dp))%Z
              else (Z.log2 n - Z.log2 (Zpos dp) - 1)%Z) in *.
    set (k := (prec - 1 - e)%Z).
    pose proof (mul_pow2_value n (Zpos dp) k ltac:(lia)) as Hv.
    destruct (mul_pow2 n (Zpos dp) k) as [a b]. destruct Hv as [Hb Hv].
    pose proof (round_half_even_bound a b Hb) as Hm.
    set (m := round_half_even a b) in *.
    assert (Hres : (if (0 <=? k)%Z then Qmake m (Z.to_pos (2 ^ k)) else inject_Z (m * 2 ^ (- k)))
                   == inject_Z m * Qpower 2 (- k)).
    { destruct (Z.leb_spec 0 k).
      - rewrite Qmake_Qdiv, Z2Pos.id by (apply Z.pow_pos_nonneg; lia).
        rewrite inject_Z_pow2, Qpower_opp by lia. reflexivity.
      - rewrite inject_Z_mult, inject_Z_pow2 by lia. reflexivity. }
    rewrite Hres. clear Hres.
    set (y := inject_Z a / inject_Z b).
    assert (Hyb : y * inject_Z b == inject_Z a).
    { unfold y. field. apply inject_Z_pos_neq, Hb. }
    assert (Hbq : 0 < inject_Z b) by (apply inject_Z_pos, Hb).
    destruct Hm as [Hm1 Hm2].
    replace (2 * a - b)%Z with (2 * a + - b)%Z in Hm1 by lia.
    rewrite Zle_Qle in Hm1, Hm2.
    rewrite ?inject_Z_opp, ?inject_Z_plus, ?inject_Z_mult, ?inject_Z_opp in Hm1, Hm2.
    change (inject_Z 2) with (2 # 1) in Hm1, Hm2. rewrite inject_Z_opp in Hm1.
    assert (Hmy1 : inject_Z m - y <= 1 # 2) by nra.
    assert (Hmy2 : y - inject_Z m <= 1 # 2) by nra.
    assert (Hpk : Qpower 2 k * Qpower 2 (- k) == 1).
    { rewrite <- Qpower_plus by lra. replace (k + - k)%Z with 0%Z by lia. reflexivity. }
    assert (Hek : Qpower 2 e * Qpower 2 k * 2 == inject_Z (2 ^ prec)).
    { rewrite inject_Z_pow2 by lia. rewrite <- Qpower_plus by lra.
      change 2 with (Qpower 2 1) at 2. rewrite <- Qpower_plus by lra.
      unfold k. replace (e + (prec - 1 - e) + 1)%Z with prec by lia. reflexivity. }
    pose proof (Qpower2_pos k). pose proof (Qpower2_pos (- k)). pose proof (Qpower2_pos e).
    rewrite <- Hxv in Hv. fold y in Hv.
    assert (He' : Qpower 2 e <= n # dp) by (rewrite Hxv; exact He). clear He.
    apply rel_err_step with (y := y); auto.
    + rewrite Hv. rewrite <- Hek. nra.
    + rewrite Hv. rewrite <- Qmult_assoc, Hpk. ring.
Qed.

Lemma fl32_bounds x : 0 <= x ->
  16777216 * (fl32 x - x) <= x /\ 16777216 * (x - fl32 x) <= x.
Proof. intros Hx. apply (round_float_bounds 24 x); [lia|exact Hx]. Qed.

Lemma fl64_bounds x : 0 <= x ->
  9007199254740992 * (fl64 x - x) <= x /\ 9007199254740992 * (x - fl64 x) <= x.
Proof. intros Hx. apply (round_float_bounds 53 x); [lia|exact Hx]. Qed.

Lemma q_trunc_le x c : x < inject_Z (c + 1) -> (q_trunc x <= c)%Z.
Proof.
  destruct x as [n d]. unfold Qlt, q_trunc. simpl. intros H.
  assert (n / Zpos d < c + 1)%Z; [apply Z.div_lt_upper_bound; lia|lia].
Qed.

Lemma q_trunc_nonneg x : 0 <= x -> (0 <= q_trunc x)%Z.
Proof.
  destruct x as [n d]. unfold Qle, q_trunc. simpl. intros H. apply Z.div_pos; lia.
Qed.

Lemma q_trunc_below x : inject_Z (q_trunc x) <= x.
Proof.
  destruct x as [n d]. unfold Qle, q_trunc. simpl.
  pose proof (Z.mul_div_le n (Zpos d) ltac:(lia)). lia.
Qed.

Lemma q_trunc_inject_Z z : q_trunc (inject_Z z) = z.
Proof. unfold q_trunc. simpl. apply Z.div_1_r. Qed.

Lemma qmin_spec a b : qmin a b <= a /\ qmin a b <= b /\ (qmin a b = a \/ qmin a b = b).
Proof.
  unfold qmin. destruct (Qle_bool a b) eqn:E.
  - apply Qle_bool_iff in E. split; [lra|split; [exact E|left; reflexivity]].
  - assert (~ a <= b) by (intros H; apply Qle_bool_iff in H; congruence).
    apply Qnot_le_lt in H. split; [lra|split; [lra|right; reflexivity]].
Qed.

(** The requested short side: at most 400 when [s <= l]. *)
Lemma thumbnail_request_bound s l : (0 <= s <= l)%Z -> (1 <= l)%Z ->
  (0 <= f_as_u32 (fl32 (f32_of_u32 s * fl32 (f32_of_u32 max_dimension / f32_of_u32 l))) <= 400)%Z.
Proof.
  intros Hs Hl. unfold f32_of_u32, max_dimension.
  set (fs := fl32 (inject_Z s)). set (fl := fl32 (inject_Z l)). set (f4 := fl32 (inject_Z 400)).
  assert (Hs0 : 0 <= inject_Z s) by (apply inject_Z_nonneg; lia).
  assert (Hl0 : 1 <= inject_Z l) by (unfold Qle; simpl; lia).
  assert (Hsl : inject_Z s <= inject_Z l) by (unfold Qle; simpl; lia).
  destruct (fl32_bounds (inject_Z s) Hs0) as [Hfs1 Hfs2]. fold fs in Hfs1, Hfs2.
  destruct (fl32_bounds (inject_Z l) ltac:(lra)) as [Hfl1 Hfl2]. fold fl in Hfl1, Hfl2.
  destruct (fl32_bounds (inject_Z 400) ltac:(unfold Qle; simpl; lia)) as [Hf41 Hf42].
  fold f4 in Hf41, Hf42. change (inject_Z 400) with (400 # 1) in Hf41, Hf42.
  assert (Hflpos : 0 < fl) by lra.
  set (q := f4 / fl).
  assert (Hq : q * fl == f4) by (unfold q; field; lra).
  assert (Hq0 : 0 <= q) by (unfold q; apply Qle_shift_div_l; lra).
  destruct (fl32_bounds q Hq0) as [Hr1 Hr2]. set (r := fl32 q) in *.
  assert (Hr0 : 0 <= r) by lra.
  assert (Hfs0 : 0 <= fs) by lra.
  assert (Hp0 : 0 <= fs * r) by (apply Qmult_le_0_compat; lra).
  destruct (fl32_bounds (fs * r) Hp0) as [Hp1 Hp2]. set (p := fl32 (fs * r)) in *.
  (* q * l is at most 400 (1 + e) / (1 - e) *)
  assert (Hql : q * inject_Z l * 16777215 <= 400 * 16777217).
  { assert (q * (16777216 * fl) <= q * (16777216 * inject_Z l + inject_Z l)) by nra.
    nra. }
  assert (Hprod : fs * r * 16777216 * 16777216 * 16777215
                  <= inject_Z s * 16777217 * q * 16777217 * 16777215).
  { assert (fs * 16777216 <= inject_Z s * 16777217) by lra.
    assert (r * 16777216 <= q * 16777217) by lra.
    nra. }
  assert (Hsq : inject_Z s * q <= inject_Z l * q) by nra.
  assert (Hp : p < inject_Z (400 + 1)).
  { change (inject_Z (400 + 1)) with (401 # 1). nra. }
  unfold f_as_u32. split.
  - apply Z.min_glb; [apply q_trunc_nonneg; lra|unfold U32_MAX; lia].
  - pose proof (q_trunc_le p 400 Hp). unfold U32_MAX. lia.
Qed.

Lemma fl64_nonneg x : 0 <= x -> 0 <= fl64 x.
Proof. intros Hx. destruct (fl64_bounds x Hx). lra. Qed.

(** One side computed by [resize_dimensions]. *)
Lemma resize_side_bound dim n ratio : (1 <= dim)%Z -> (0 <= n <= 400)%Z ->
  0 <= ratio -> ratio <= fl64 (f64_of_u32 n / f64_of_u32 dim) ->
  (1 <= Z.max (f_as_u64 (inject_Z (q_round (fl64 (f64_of_u32 dim * ratio))))) 1 <= 400)%Z.
Proof.
  intros Hd Hn Hr0 Hr. unfold f64_of_u32 in *.
  assert (Hd0 : 1 <= inject_Z dim) by (unfold Qle; simpl; lia).
  assert (Hn0 : 0 <= inject_Z n) by (unfold Qle; simpl; lia).
  assert (Hn4 : inject_Z n <= 400) by (unfold Qle; simpl; lia).
  set (u := inject_Z n / inject_Z dim) in *.
  assert (Hu : u * inject_Z dim == inject_Z n) by (unfold u; field; lra).
  assert (Hu0 : 0 <= u) by (unfold u; apply Qle_shift_div_l; lra).
  destruct (fl64_bounds u Hu0) as [Hw1 Hw2].
  assert (Hx0 : 0 <= inject_Z dim * ratio) by (apply Qmult_le_0_compat; lra).
  destruct (fl64_bounds _ Hx0) as [Hy1 Hy2].
  assert (Hx : inject_Z dim * ratio * 9007199254740992 <= inject_Z n * 9007199254740993).
  { assert (ratio * 9007199254740992 <= u * 9007199254740993) by lra. nra. }
  assert (Hy : fl64 (inject_Z dim * ratio) + (1 # 2) < inject_Z (400 + 1)).
  { change (inject_Z (400 + 1)) with (401 # 1). nra. }
  unfold q_round, f_as_u64. rewrite q_trunc_inject_Z.
  pose proof (q_trunc_le _ 400 Hy). unfold U64_MAX. lia.
Qed.

Lemma resize_dims_bound w h nw nh : (1 <= w)%Z -> (1 <= h)%Z ->
  (0 <= nw <= 400)%Z -> (0 <= nh <= 400)%Z ->
  let '(tw, th) := resize_dims w h nw nh in (1 <= tw <= 400)%Z /\ (1 <= th <= 400)%Z.
Proof.
  intros Hw Hh Hnw Hnh. unfold resize_dims.
  destruct (Z.eqb_spec nw w); destruct (Z.eqb_spec nh h); cbn [andb];
    try (split; lia).
  all: unfold resize_dimensions; cbn [negb].
  all: set (wr := fl64 (f64_of_u32 nw / f64_of_u32 w));
       set (hr := fl64 (f64_of_u32 nh / f64_of_u32 h)).
  all: assert (Hwr : 0 <= wr) by (apply fl64_nonneg; unfold f64_of_u32;
         apply Qle_shift_div_l; [unfold Qlt; simpl; lia|unfold Qle; simpl; lia]).
  all: assert (Hhr : 0 <= hr) by (apply fl64_nonneg; unfold f64_of_u32;
         apply Qle_shift_div_l; [unfold Qlt; simpl; lia|unfold Qle; simpl; lia]).
  all: destruct (qmin_spec wr hr) as (H1 & H2 & H3).
  all: assert (Hr0 : 0 <= qmin wr hr) by (destruct H3 as [-> | ->]; assumption).
  all: pose proof (resize_side_bound w nw (qmin wr hr) Hw Hnw Hr0 H1) as Bw;
       pose proof (resize_side_bound h nh (qmin wr hr) Hh Hnh Hr0 H2) as Bh.
  all: destruct (Z.ltb_spec U32_MAX (Z.max (f_as_u64 (inject_Z (q_round (fl64 (f64_of_u32 w * qmin wr hr))))) 1));
       [unfold U32_MAX in *; lia|].
  all: destruct (Z.ltb_spec U32_MAX (Z.max (f_as_u64 (inject_Z (q_round (fl64 (f64_of_u32 h * qmin wr hr))))) 1));
       [unfold U32_MAX in *; lia|].
  all: split; assumption.
Qed.

End FloatBounds.

(** A thumbnail of an image of positive size has both sides between 1
    and 400. *)
Theorem thumbnail_fits_400 w h : (1 <= w)%Z -> (1 <= h)%Z ->
  let '(tw, th) := generate_thumbnail w h in (1 <= tw <= 400)%Z /\ (1 <= th <= 400)%Z.
Proof.
  intros Hw Hh. unfold generate_thumbnail.
  destruct ((w <=? max_dimension) && (h <=? max_dimension))%Z eqn:E.
  - apply andb_true_iff in E as [E1 E2]. apply Z.leb_le in E1, E2. unfold max_dimension in *.
    split; lia.
  - destruct (Z.ltb_spec h w).
    + apply resize_dims_bound; first [lia | unfold max_dimension; lia
                                      | apply thumbnail_request_bound; lia].
    + apply resize_dims_bound; first [lia | unfold max_dimension; lia
                                      | apply thumbnail_request_bound; lia].
Qed.

Lemma thumbnail_fits_400_witness :
  ((1 <= 1000)%Z /\ (1 <= 999)%Z) /\ generate_thumbnail 1000 999 = (399, 399)%Z /\
  (1 <= 399 <= 400)%Z /\ (1 <= 399 <= 400)%Z.
Proof.
  pose proof (thumbnail_fits_400 1000 999 ltac:(lia) ltac:(lia)) as H.
  assert (E : generate_thumbnail 1000 999 = (399, 399)%Z) by (vm_compute; reflexivity).
  rewrite E in H. split; [split; lia|split; [exact E|exact H]].
Defined.

(* ------------------------------------------------------------------ *)
(** ** Classification of digit strings *)

Lemma ends_suffix tot r s x : In x (ends tot r s) -> exists p, s = p ++ x.
Proof.
  revert s x. induction r as [p| | | |r1 IH1 r2 IH2|r1 IH1 r2 IH2|r1 IH1]; intros s x Hx.
  - apply ends_class in Hx as (c & -> & _). exists [c]. reflexivity.
  - apply ends_empty in Hx as ->. exists []. reflexivity.
  - simpl in Hx. destruct (Nat.eqb _ _); [destruct Hx as [<-|[]]|destruct Hx]. exists []. reflexivity.
  - apply ends_end in Hx as [-> ->]. exists []. reflexivity.
  - apply ends_cat in Hx as (y & Hy & Hx).
    destruct (IH1 _ _ Hy) as [p1 ->]. destruct (IH2 _ _ Hx) as [p2 ->].
    exists (p1 ++ p2). apply app_assoc.
  - apply ends_alt in Hx as [Hx|Hx]; eauto.
  - cbn [ends] in Hx. generalize dependent (length s). intros fuel.
    revert s x. induction fuel as [|f IHf]; intros s x Hx.
    + destruct Hx as [<-|[]]. exists []. reflexivity.
    + destruct Hx as [<-|Hx]; [exists []; reflexivity|].
      apply in_flat_map in Hx as (s' & Hs' & Hx).
      destruct (Nat.ltb _ _); [|destruct Hx].
      destruct (IH1 _ _ Hs') as [p1 ->]. destruct (IHf _ _ Hx) as [p2 ->].
      exists (p1 ++ p2). apply app_assoc.
Qed.

Lemma ends_head_class tot q r s x :
  In x (ends tot (RCat (RClass q) r) s) -> exists c s', s = c :: s' /\ q c = true.
Proof.
  intros Hx. apply ends_cat in Hx as (y & Hy & _). apply ends_class in Hy as (c & -> & Hc). eauto.
Qed.

Lemma ends_cat_left tot r1 r2 s x : In x (ends tot (RCat r1 r2) s) -> exists y, In y (ends tot r1 s).
Proof. intros Hx. apply ends_cat in Hx as (y & Hy & _). eauto. Qed.

(** A pattern [r] followed by a char of class [q] cannot match a text
    with no such char. *)
Lemma ends_class_absent tot r q r' s x :
  (forall c, In c s -> q c = false) -> In x (ends tot (RCat r (RCat (RClass q) r')) s) -> False.
Proof.
  intros Hq Hx. apply ends_cat in Hx as (y & Hy & Hx).
  apply ends_head_class in Hx as (c & y' & -> & Hc).
  destruct (ends_suffix _ _ _ _ Hy) as [p ->].
  rewrite (Hq c) in Hc; [discriminate|]. apply in_app_iff. right. left. reflexivity.
Qed.

Lemma is_match_alt r1 r2 t : is_match (RAlt r1 r2) t = is_match r1 t || is_match r2 t.
Proof.
  unfold is_match. generalize (seq 0 (S (length t))). intros l.
  induction l as [|i l IH]; [reflexivity|]. cbn [existsb]. rewrite IH. cbn [ends].
  destruct (ends (length t) r1 (skipn i t)), (ends (length t) r2 (skipn i t)); simpl;
    try reflexivity; destruct (existsb _ l), (existsb _ l); reflexivity.
Qed.

Lemma digits_no_char s q :
  forallb is_ascii_digit s = true -> (forall c, is_ascii_digit c = true -> q c = false) ->
  forall c, In c s -> q c = false.
Proof. intros Hs Hq c Hc. apply Hq. rewrite forallb_forall in Hs. auto. Qed.

Lemma digit_range c : is_ascii_digit c = true -> (48 <= c <= 57)%N.
Proof.
  unfold is_ascii_digit, in_range. intros H. apply andb_true_iff in H as [H1 H2].
  apply N.leb_le in H1, H2. lia.
Qed.

Lemma hex_fails_on_digits s :
  forallb is_ascii_digit s = true -> is_match HEX_COLOR_REGEX s = false.
Proof.
  intros Hs. destruct (is_match HEX_COLOR_REGEX s) eqn:E; [|reflexivity].
  exfalso. unfold HEX_COLOR_REGEX in E. cbn [RSeq] in E. apply is_match_start in E as (x & Hx).
  apply ends_head_class in Hx as (c & s' & -> & Hc). simpl in Hs.
  apply andb_true_iff in Hs as [Hd _]. apply digit_range in Hd. apply N.eqb_eq in Hc.
  simpl in Hc. lia.
Qed.

Lemma ends_str_head tot a k s x :
  In x (ends tot (RStr (String a k)) s) -> exists s', s = N_of_ascii a :: s'.
Proof.
  change (RStr (String a k)) with (RCat (RClass (N.eqb (N_of_ascii a))) (RStr k)).
  intros Hx. apply ends_head_class in Hx as (c & s' & -> & Hc).
  apply N.eqb_eq in Hc. subst. eauto.
Qed.

Lemma digits_head_not s c s' : forallb is_ascii_digit s = true -> s = c :: s' -> (48 <= c <= 57)%N.
Proof. intros Hs ->. simpl in Hs. apply andb_true_iff in Hs as [Hc _]. apply digit_range, Hc. Qed.

Lemma lit_class_digits (a : ascii) s :
  (N_of_ascii a < 48 \/ 57 < N_of_ascii a)%N -> forallb is_ascii_digit s = true ->
  forall c, In c s -> N.eqb (N_of_ascii a) c = false.
Proof.
  intros Ha Hs c Hc. rewrite forallb_forall in Hs. apply Hs, digit_range in Hc.
  apply N.eqb_neq. lia.
Qed.

Lemma url_fails_on_digits s :
  forallb is_ascii_digit s = true -> is_match URL_REGEX s = false.
Proof.
  intros Hs. unfold URL_REGEX. rewrite is_match_alt. apply orb_false_iff. split.
  - destruct (is_match _ s) eqn:E; [|reflexivity]. exfalso.
    cbn [RSeq] in E. apply is_match_start in E as (x & Hx).
    apply ends_cat_left in Hx as (y & Hy). cbn [RAlts] in Hy. apply ends_alt in Hy as [Hy|Hy].
    + cbn [RSeq] in Hy. apply ends_cat_left in Hy as (z & Hz).
      apply ends_str_head in Hz as (s' & E). apply (digits_head_not _ _ _ Hs) in E.
      simpl in E. lia.
    + apply ends_str_head in Hy as (s' & E). apply (digits_head_not _ _ _ Hs) in E.
      simpl in E. lia.
  - destruct (is_match _ s) eqn:E; [|reflexivity]. exfalso.
    cbn [RSeq] in E. apply is_match_start in E as (x & Hx).
    unfold RLit in Hx. apply (ends_class_absent _ _ _ _ _ _ (lit_class_digits "." s ltac:(simpl; lia) Hs) Hx).
Qed.

Lemma email_fails_on_digits s :
  forallb is_ascii_digit s = true -> is_match EMAIL_REGEX s = false.
Proof.
  intros Hs. destruct (is_match _ s) eqn:E; [|reflexivity]. exfalso.
  unfold EMAIL_REGEX in E. cbn [RSeq] in E. apply is_match_start in E as (x & Hx).
  unfold RLit in Hx. apply (ends_class_absent _ _ _ _ _ _ (lit_class_digits "@" s ltac:(simpl; lia) Hs) Hx).
Qed.

Lemma digits_app_r p z : forallb is_ascii_digit (p ++ z) = true -> forallb is_ascii_digit z = true.
Proof. rewrite forallb_app. intros H. apply andb_true_iff in H as [_ H]. exact H. Qed.

Lemma ends_digits tot r s x :
  forallb is_ascii_digit s = true -> In x (ends tot r s) -> forallb is_ascii_digit x = true.
Proof. intros Hs Hx. destruct (ends_suffix _ _ _ _ Hx) as [p ->]. exact (digits_app_r _ _ Hs). Qed.

Lemma ends_opt_absent tot q y z :
  (forall c, In c y -> q c = false) -> In z (ends tot (ROpt (RClass q)) y) <-> z = y.
Proof.
  intros Hq. unfold ROpt. rewrite ends_alt, ends_empty. split; [|auto].
  intros [Hz|Hz]; [|exact Hz].
  apply ends_class in Hz as (c & -> & Hc). rewrite Hq in Hc; [discriminate|left; reflexivity].
Qed.


Lemma digit_not_ws c : is_ascii_digit c = true -> is_whitespace c = false.
Proof.
  intros Hc. apply digit_range in Hc.
  unfold is_whitespace. repeat rewrite orb_false_iff.
  repeat split; try (apply N.eqb_neq; lia);
    apply andb_false_iff; (left; apply N.leb_gt; lia) || (right; apply N.leb_gt; lia).
Qed.

Lemma digits_absent (q : rchar -> bool) y :
  forallb is_ascii_digit y = true -> (forall c, (48 <= c <= 57)%N -> q c = false) ->
  forall c, In c y -> q c = false.
Proof. intros Hy Hq c Hc. rewrite forallb_forall in Hy. apply Hq, digit_range, Hy, Hc. Qed.

Lemma phone_sep_digits tot y z :
  forallb is_ascii_digit y = true -> In z (ends tot phone_sep y) <-> z = y.
Proof.
  intros Hy. apply ends_opt_absent. intros c Hc.
  rewrite forallb_forall in Hy. pose proof (Hy c Hc) as Hd.
  rewrite digit_not_ws by exact Hd. apply digit_range in Hd. apply N.eqb_neq. lia.
Qed.

Lemma phone_prefix_digits tot y z :
  forallb is_ascii_digit y = true ->
  In z (ends tot phone_prefix y) <-> z = y \/ y = 49%N :: z.
Proof.
  intros Hy. unfold phone_prefix, ROpt at 1. cbn [RSeq].
  assert (Hplus : forall y', forallb is_ascii_digit y' = true ->
            forall z', In z' (ends tot (ROpt (RLit "+")) y') <-> z' = y').
  { intros y' Hy' z'. apply ends_opt_absent. apply digits_absent; [exact Hy'|].
    intros c Hc. apply N.eqb_neq. simpl. lia. }
  assert (Hws : forall y', forallb is_ascii_digit y' = true ->
            forall z', In z' (ends tot (ROpt (RClass is_whitespace)) y') <-> z' = y').
  { intros y' Hy' z'. apply ends_opt_absent. intros c Hc.
    apply digit_not_ws. rewrite forallb_forall in Hy'. auto. }
  rewrite ends_alt. split.
  - intros [H|H]; [|apply ends_empty in H; auto].
    apply ends_cat in H as (y1 & H1 & H).
    apply ends_cat in H as (z1 & H2 & H).
    apply ends_cat in H as (z2 & H3 & H4).
    apply (Hplus _ Hy) in H1 as ->. apply ends_empty in H4 as ->.
    unfold ROpt, RLit in H2. apply ends_alt in H2 as [H2|H2].
    + apply ends_class in H2 as (c & -> & Hc). apply N.eqb_eq in Hc. simpl in Hc. subst c.
      simpl in Hy. apply (Hws _ Hy) in H3 as ->. auto.
    + apply ends_empty in H2 as ->. apply (Hws _ Hy) in H3 as ->. auto.
  - intros [-> | ->].
    + right. apply ends_empty. reflexivity.
    + left. apply ends_cat. exists (49%N :: z). split; [apply (Hplus _ Hy); reflexivity|].
      assert (Hz : forallb is_ascii_digit z = true) by (simpl in Hy; exact Hy).
      apply ends_cat. exists z. split.
      { unfold ROpt; apply ends_alt; left; apply ends_class; exists 49%N; auto. }
      apply ends_cat. exists z. split; [apply (Hws _ Hz); reflexivity|apply ends_empty; reflexivity].
Qed.

Lemma phone_area_digits tot y z :
  forallb is_ascii_digit y = true ->
  In z (ends tot phone_area y) <-> exists w, y = w ++ z /\ length w = 3.
Proof.
  intros Hy. unfold phone_area. cbn [RAlts RSeq]. rewrite ends_alt, ends_rep_class. split.
  - intros [Hz|(w & -> & Hl & _)]; [|eauto].
    unfold RLit in Hz. apply ends_head_class in Hz as (c & y' & -> & Hc).
    simpl in Hy. apply andb_true_iff in Hy as [Hd _]. apply digit_range in Hd.
    apply N.eqb_eq in Hc. simpl in Hc. lia.
  - intros (w & -> & Hl). right. exists w. split; [reflexivity|split; [exact Hl|]].
    rewrite forallb_app in Hy. apply andb_true_iff in Hy as [Hw _]. exact Hw.
Qed.


Lemma phone_regex_eq : PHONE_REGEX = RCat RStart (RCat phone_prefix phone_rest).
Proof. reflexivity. Qed.

Lemma phone_rest_digits tot z0 :
  forallb is_ascii_digit z0 = true -> (exists x, In x (ends tot phone_rest z0)) <-> length z0 = 10.
Proof.
  intros H0. unfold phone_rest. split.
  - intros (x & H).
    apply ends_cat in H as (z1 & Ha & H). apply (phone_area_digits _ _ _ H0) in Ha as (w1 & -> & L1).
    pose proof (digits_app_r _ _ H0) as H1.
    apply ends_cat in H as (z2 & Hs & H). apply (phone_sep_digits _ _ _ H1) in Hs as ->.
    apply ends_cat in H as (z3 & Hr & H). apply ends_rep_class in Hr as (w2 & -> & L2 & _).
    pose proof (digits_app_r _ _ H1) as H3.
    apply ends_cat in H as (z4 & Hs & H). apply (phone_sep_digits _ _ _ H3) in Hs as ->.
    apply ends_cat in H as (z5 & Hr & H). apply ends_rep_class in Hr as (w3 & -> & L3 & _).
    apply ends_cat in H as (z6 & He & _). apply ends_end in He as [-> _].
    rewrite !length_app. simpl. lia.
  - intros L.
    do 10 (destruct z0 as [|?c z0]; [discriminate|]). destruct z0; [|discriminate].
    pose proof H0 as Hall. cbn [forallb] in H0. repeat (apply andb_true_iff in H0 as [? H0]).
    exists []. apply ends_cat. exists [c2; c3; c4; c5; c6; c7; c8].
    split; [apply (phone_area_digits _ _ _ Hall); exists [c; c0; c1]; split; reflexivity|].
    apply ends_cat. exists [c2; c3; c4; c5; c6; c7; c8].
    split; [unfold phone_sep, ROpt; apply ends_alt; right; apply ends_empty; reflexivity|].
    apply ends_cat. exists [c5; c6; c7; c8].
    split; [apply ends_rep_class; exists [c2; c3; c4]; split; [reflexivity|split; [reflexivity|cbn [forallb]; rewrite ?andb_true_r, !andb_true_iff; tauto]]|].
    apply ends_cat. exists [c5; c6; c7; c8].
    split; [unfold phone_sep, ROpt; apply ends_alt; right; apply ends_empty; reflexivity|].
    apply ends_cat. exists [].
    split; [apply ends_rep_class; exists [c5; c6; c7; c8]; split; [reflexivity|split; [reflexivity|cbn [forallb]; rewrite ?andb_true_r, !andb_true_iff; tauto]]|].
    apply ends_cat. exists []. split; [apply ends_end; auto|apply ends_empty; reflexivity].
Qed.

Lemma phone_on_digits s :
  forallb is_ascii_digit s = true ->
  is_match PHONE_REGEX s = true <-> length s = 10 \/ (length s = 11 /\ hd 0%N s = 49%N).
Proof.
  intros Hs. rewrite phone_regex_eq, is_match_start. split.
  - intros (x & H). apply ends_cat in H as (z0 & Hp & H).
    apply (phone_prefix_digits _ _ _ Hs) in Hp.
    assert (Hz : forallb is_ascii_digit z0 = true)
      by (destruct Hp as [-> | ->]; [exact Hs|simpl in Hs; exact Hs]).
    assert (L : length z0 = 10) by (apply (phone_rest_digits (length s) z0 Hz); eauto).
    destruct Hp as [-> | ->]; [auto|right; simpl; auto].
  - intros Hl.
    assert (exists z0, (z0 = s \/ s = 49%N :: z0) /\ length z0 = 10) as (z0 & Hp & L).
    { destruct Hl as [L|[L Hh]]; [eauto|].
      destruct s as [|c s']; [discriminate|]. simpl in Hh, L. subst c. eauto. }
    assert (Hz : forallb is_ascii_digit z0 = true)
      by (destruct Hp as [-> | ->]; [exact Hs|simpl in Hs; exact Hs]).
    apply (phone_rest_digits (length s) z0 Hz) in L as (x & Hx).
    exists x. apply ends_cat. exists z0. split; [apply (phone_prefix_digits _ _ _ Hs); tauto|exact Hx].
Qed.

Lemma ends_star_all tot p y :
  forallb p y = true -> In [] (ends tot (RStar (RClass p)) y).
Proof.
  induction y as [|c y IH]; intros Hy; [left; reflexivity|].
  cbn [forallb] in Hy. apply andb_true_iff in Hy as [Hc Hy].
  simpl. rewrite Hc. right. simpl.
  replace (length y <? S (length y)) with true by (symmetry; apply Nat.ltb_lt; lia).
  rewrite app_nil_r. exact (IH Hy).
Qed.

Lemma cls_digit_ascii U c : is_ascii_digit c = true -> cls_digit U c = true.
Proof.
  intros Hc. unfold cls_digit. pose proof (digit_range _ Hc).
  replace (is_ascii c) with true by (symmetry; apply N.ltb_lt; lia). exact Hc.
Qed.

Lemma number_on_digits U s :
  forallb is_ascii_digit s = true -> s <> [] -> is_match (NUMBER_REGEX U) s = true.
Proof.
  intros Hs Hne. destruct s as [|c s']; [congruence|].
  cbn [forallb] in Hs. apply andb_true_iff in Hs as [Hc Hs'].
  unfold NUMBER_REGEX. cbn [RSeq RAlts]. apply is_match_start. exists [].
  apply ends_cat. exists (c :: s'). split.
  { unfold ROpt. apply ends_alt. right. apply ends_empty. reflexivity. }
  apply ends_cat. exists []. split.
  - apply ends_alt. left. apply ends_cat. exists []. split.
    + unfold RPlus. apply ends_cat. exists s'. split.
      * apply ends_class. exists c. split; [reflexivity|apply cls_digit_ascii, Hc].
      * apply ends_star_all. rewrite forallb_forall in Hs' |- *. intros x Hx.
        apply cls_digit_ascii, Hs', Hx.
    + apply ends_cat. exists []. split.
      * unfold ROpt. apply ends_alt. right. apply ends_empty. reflexivity.
      * apply ends_cat. exists []. split; [left; reflexivity|apply ends_empty; reflexivity].
  - apply ends_cat. exists []. split; [apply ends_end; auto|apply ends_empty; reflexivity].
Qed.

Lemma trim_start_digits s : forallb is_ascii_digit s = true -> trim_start s = s.
Proof.
  destruct s as [|c s]; [reflexivity|]. cbn [forallb trim_start].
  intros H. apply andb_true_iff in H as [Hc _]. rewrite digit_not_ws by exact Hc. reflexivity.
Qed.

Lemma trim_digits s : forallb is_ascii_digit s = true -> trim s = s.
Proof.
  intros Hs. unfold trim, trim_end. rewrite (trim_start_digits s Hs).
  rewrite trim_start_digits; [apply rev_involutive|].
  rewrite forallb_forall in Hs |- *. intros x Hx. apply Hs, in_rev, Hx.
Qed.

(** Text made only of ASCII digits is classified as a phone number when it
    has ten digits, or eleven with a leading [1]; otherwise as a number. *)
Theorem detect_digit_strings U s :
  s <> [] -> forallb is_ascii_digit s = true ->
  detect_content_type U s =
    if (length s =? 10) || ((length s =? 11) && (hd 0%N s =? 49)%N) then Phone else Number.
Proof.
  intros Hne Hs. unfold detect_content_type. rewrite (trim_digits _ Hs).
  destruct s as [|c s'] eqn:Es; [congruence|]. rewrite <- Es in *.
  rewrite (hex_fails_on_digits _ Hs), (url_fails_on_digits _ Hs), (email_fails_on_digits _ Hs).
  destruct ((length s =? 10) || ((length s =? 11) && (hd 0%N s =? 49)%N)) eqn:E.
  - replace (is_match PHONE_REGEX s) with true; [reflexivity|]. symmetry.
    apply (phone_on_digits _ Hs). apply orb_true_iff in E as [E|E]; [left; apply Nat.eqb_eq, E|].
    apply andb_true_iff in E as [E1 E2]. right. split; [apply Nat.eqb_eq, E1|apply N.eqb_eq, E2].
  - replace (is_match PHONE_REGEX s) with false.
    + rewrite (number_on_digits U s Hs Hne). reflexivity.
    + symmetry. destruct (is_match PHONE_REGEX s) eqn:P; [|reflexivity].
      apply (phone_on_digits _ Hs) in P. apply orb_false_iff in E as [E1 E2].
      apply Nat.eqb_neq in E1. destruct P as [P|[P1 P2]]; [congruence|].
      rewrite P1, P2 in E2. discriminate.
Qed.

Lemma detect_digit_strings_witness :
  detect_content_type ascii_tables (lit "5551234567") = Phone /\
  detect_content_type ascii_tables (lit "15551234567") = Phone /\
  detect_content_type ascii_tables (lit "25551234567") = Number.
Proof.
  split; [|split];
    (rewrite (detect_digit_strings ascii_tables); [reflexivity|discriminate|reflexivity]).
Defined.
